(** * go-jsonschema-generator: the type-to-schema inference walk

    A shallow embedding of [jsonschema.go].  The Go program walks a
    [reflect.Type] (shallow mode, [Read]) or a [reflect.Value] (deep mode,
    [ReadDeep]) and fills a tree of [property] nodes in place.

    - Go's [reflect] package is modelled in [Module reflect]: type
      descriptors and values are finite trees, every accessor that panics in
      Go returns [Panic] here.  A type that contains itself and a value with
      a cycle of pointers, on which the Go walk does not end, are not
      trees and have no counterpart here.
    - A [*property] that the walker mutates becomes a [property] value that
      is passed in and returned; a Go [map[string]*property] becomes an
      [option (gmap string property)], [None] being the nil map.
    - A Go panic is the [Panic] outcome of the [result] monad. *)

From stdpp Require Import gmap strings list fin_maps sorting.

Set Warnings "-register-all".
Local Open Scope string_scope.

(** ** Outcomes: a normal return or a panic *)

Inductive result (A : Type) : Type :=
| Ok (a : A)
| Panic (msg : string).
Arguments Ok {A} a.
Arguments Panic {A} msg.

#[global] Instance result_ret : MRet result := @Ok.
#[global] Instance result_bind : MBind result :=
  λ A B f r, match r with Ok a => f a | Panic msg => Panic msg end.

(** [for _, x := range l { s = f(s, x) }] with a body that may panic. *)
Fixpoint foldM {A S : Type} (f : S → A → result S) (l : list A) (s : S)
  : result S :=
  match l with
  | [] => Ok s
  | x :: l' => f s x ≫= foldM f l'
  end.

(** ** The part of Go's [reflect] package the walker uses *)

Module reflect.

(** [reflect.Kind], in the order of the Go declaration. *)
Inductive Kind :=
| Invalid | Bool
| Int | Int8 | Int16 | Int32 | Int64
| Uint | Uint8 | Uint16 | Uint32 | Uint64 | Uintptr
| Float32 | Float64 | Complex64 | Complex128
| Array | Chan | Func | Interface | Map | Ptr | Slice
| String | Struct | UnsafePointer.

#[global] Instance Kind_eq_dec : EqDecision Kind.
Proof. solve_decision. Defined.

(** The basic types: those whose descriptor has no element type, no key
    type and no fields. *)
Inductive basic :=
| BBool
| BInt | BInt8 | BInt16 | BInt32 | BInt64
| BUint | BUint8 | BUint16 | BUint32 | BUint64 | BUintptr
| BFloat32 | BFloat64 | BComplex64 | BComplex128
| BString | BUnsafePointer.

Definition basicKind (b : basic) : Kind :=
  match b with
  | BBool => Bool
  | BInt => Int | BInt8 => Int8 | BInt16 => Int16
  | BInt32 => Int32 | BInt64 => Int64
  | BUint => Uint | BUint8 => Uint8 | BUint16 => Uint16
  | BUint32 => Uint32 | BUint64 => Uint64 | BUintptr => Uintptr
  | BFloat32 => Float32 | BFloat64 => Float64
  | BComplex64 => Complex64 | BComplex128 => Complex128
  | BString => String | BUnsafePointer => UnsafePointer
  end.

(** [reflect.StructTag], held in parsed form: the conventional
    [key:"value"] pairs of the tag, in order. *)
Definition StructTag := list (string * string).

(** [tag.Get(key)]: the value of the first pair with that key, the empty
    string when there is none. *)
Definition StructTag_Get (tag : StructTag) (key : string) : string :=
  match List.find (λ kv, String.eqb kv.1 key) tag with
  | Some kv => kv.2
  | None => ""
  end.

(** [reflect.StructField], the fields the walker reads. *)
Record StructField_ (T : Type) := mkStructField {
  Name : string;
  Typ : T;
  Tag : StructTag;
  Anonymous : bool
}.
Arguments mkStructField {T}.
Arguments Name {T}.
Arguments Typ {T}.
Arguments Tag {T}.
Arguments Anonymous {T}.

(** [reflect.Type].  Every descriptor carries [name], the text that
    [t.String()] returns ("int", "[]uint8", "main.Item", "time.Time").
    A descriptor is a finite tree.  A Go type that contains itself, such as
    [type Node struct { Next *Node }] or
    [type Node struct { Children []Node }], has no descriptor here: on such
    a type the walks of the source call themselves without end, [read]
    through [t.Elem()] and the fields, [readDeep] through the walk of the
    element type of a slice without elements.  What is proved of "every
    type" is proved of the types that do not contain themselves. *)
Inductive rtype :=
| TBasic (name : string) (b : basic)
| TInterface (name : string)
| TFunc (name : string)
| TChan (name : string) (elem : rtype)
| TArray (name : string) (len : nat) (elem : rtype)
| TSlice (name : string) (elem : rtype)
| TMap (name : string) (key elem : rtype)
| TPtr (name : string) (elem : rtype)
| TStruct (name : string) (fields : list (StructField_ rtype)).

Abbreviation StructField := (StructField_ rtype).

(** [t.String()] *)
Definition Type_String (t : rtype) : string :=
  match t with
  | TBasic name _ | TInterface name | TFunc name | TChan name _
  | TArray name _ _ | TSlice name _ | TMap name _ _ | TPtr name _
  | TStruct name _ => name
  end.

(** [t.Kind()] *)
Definition Type_Kind (t : rtype) : Kind :=
  match t with
  | TBasic _ b => basicKind b
  | TInterface _ => Interface
  | TFunc _ => Func
  | TChan _ _ => Chan
  | TArray _ _ _ => Array
  | TSlice _ _ => Slice
  | TMap _ _ _ => Map
  | TPtr _ _ => Ptr
  | TStruct _ _ => Struct
  end.

(** [t.Elem()]: panics unless the kind is Array, Chan, Map, Ptr or Slice. *)
Definition Type_Elem (t : rtype) : result rtype :=
  match t with
  | TChan _ e | TArray _ _ e | TSlice _ e | TMap _ _ e | TPtr _ e => Ok e
  | _ => Panic "reflect: Elem of invalid type"
  end.

(** [t.Elem()] with the element handed to a continuation, the form the
    recursive walkers use. *)
Definition Type_withElem {A} (t : rtype) (k : rtype → result A) : result A :=
  match t with
  | TChan _ e | TArray _ _ e | TSlice _ e | TMap _ _ e | TPtr _ e => k e
  | _ => Panic "reflect: Elem of invalid type"
  end.

(** [t.NumField()] and [t.Field(i)] for [i] below it: the list of fields;
    panics unless the kind is Struct. *)
Definition Type_withFields {A} (t : rtype)
    (k : list StructField → result A) : result A :=
  match t with
  | TStruct _ fields => k fields
  | _ => Panic "reflect: NumField of non-struct type"
  end.

(** The unnamed composite types built from their components. *)
Definition PtrTo (t : rtype) : rtype := TPtr ("*" +:+ Type_String t) t.
Definition SliceOf (t : rtype) : rtype := TSlice ("[]" +:+ Type_String t) t.
Definition MapOf (key elem : rtype) : rtype :=
  TMap ("map[" +:+ Type_String key +:+ "]" +:+ Type_String elem) key elem.

(** [reflect.Value].  [VZero] is the zero Value ([IsValid] is false).  A
    valid value carries what its type descriptor is built from.  [data] of
    a basic value is the string itself when the kind is String; the walker
    reads it in no other case.  An interface-typed slot (a field, an
    element, a key of interface type) is [VInterface] around its dynamic
    value, [VZero] when it is nil; a nil pointer is [VPtr] around [VZero].
    The entries of a map are listed in the order in which the [MapRange]
    of one walk yields them; Go fixes no order, and another walk of the
    same map may meet them in another one (see [reordered]). *)
Inductive Value :=
| VZero
| VBasic (name : string) (b : basic) (data : string)
| VInterface (name : string) (dyn : Value)
| VFunc (name : string)
| VChan (name : string) (elem : rtype)
| VArray (name : string) (elem : rtype) (elems : list Value)
| VSlice (name : string) (elem : rtype) (elems : list Value)
| VMap (name : string) (key elem : rtype) (entries : list (Value * Value))
| VPtr (name : string) (elem : rtype) (pointee : Value)
| VStruct (name : string) (fields : list (StructField * Value)).

(** [v.IsValid()] *)
Definition Value_IsValid (v : Value) : bool :=
  match v with VZero => false | _ => true end.

(** [v.Type()]: panics on the zero Value. *)
Definition Value_Type (v : Value) : result rtype :=
  match v with
  | VZero => Panic "reflect: call of reflect.Value.Type on zero Value"
  | VBasic name b _ => Ok (TBasic name b)
  | VInterface name _ => Ok (TInterface name)
  | VFunc name => Ok (TFunc name)
  | VChan name elem => Ok (TChan name elem)
  | VArray name elem elems => Ok (TArray name (length elems) elem)
  | VSlice name elem _ => Ok (TSlice name elem)
  | VMap name key elem _ => Ok (TMap name key elem)
  | VPtr name elem _ => Ok (TPtr name elem)
  | VStruct name fields => Ok (TStruct name fields.*1)
  end.

(** [v.Kind()]: Invalid on the zero Value. *)
Definition Value_Kind (v : Value) : Kind :=
  match Value_Type v with
  | Ok t => Type_Kind t
  | Panic _ => Invalid
  end.

(** [v.String()]: the string of a String value; for every other kind a
    placeholder naming the type, not a panic. *)
Definition Value_String (v : Value) : string :=
  match v with
  | VZero => "<invalid Value>"
  | VBasic _ BString data => data
  | _ =>
      match Value_Type v with
      | Ok t => "<" +:+ Type_String t +:+ " Value>"
      | Panic _ => "<invalid Value>"
      end
  end.

(** [v.Elem()] with the result handed to a continuation: the dynamic value
    of an interface or the pointee of a pointer, the zero Value when nil;
    panics on every other kind. *)
Definition Value_withElem {A} (v : Value) (k : Value → result A) : result A :=
  match v with
  | VInterface _ dyn => k dyn
  | VPtr _ _ pointee => k pointee
  | _ => Panic "reflect: call of reflect.Value.Elem on non-pointer Value"
  end.

(** [v.Type().Elem()], [v.Len()] and [v.Index(i)] of a slice: its element
    type and its elements. *)
Definition Value_withElems {A} (v : Value)
    (k : rtype → list Value → result A) : result A :=
  match v with
  | VSlice _ elem elems => k elem elems
  | _ => Panic "reflect: call of reflect.Value.Len on non-slice Value"
  end.

(** [v.MapRange()]: the entries in iteration order; panics unless the
    kind is Map. *)
Definition Value_withMapRange {A} (v : Value)
    (k : list (Value * Value) → result A) : result A :=
  match v with
  | VMap _ _ _ entries => k entries
  | _ => Panic "reflect: call of reflect.Value.MapRange on non-map Value"
  end.

(** [v.Type().Field(i)] paired with [v.Field(i)] for every [i] below
    [NumField]; panics unless the kind is Struct. *)
Definition Value_withFields {A} (v : Value)
    (k : list (StructField * Value) → result A) : result A :=
  match v with
  | VStruct _ fields => k fields
  | _ => Panic "reflect: call of reflect.Value.NumField on non-struct Value"
  end.

(** [reflect.ValueOf(i)] for [i] of type [interface{}]: the concrete value
    held, the zero Value for a nil interface. *)
Definition ValueOf (variable : option Value) : Value :=
  match variable with
  | Some v => v
  | None => VZero
  end.

End reflect.

(** ** The schema tree *)

(** [type property struct].  [Items] is [None] for a nil pointer,
    [Properties] is [None] for a nil map and [Some ∅] for an allocated map
    without entries; [Required] is the slice, nil and empty alike [[]]. *)
Inductive property := Property {
  Type_ : string;
  Format : string;
  Items : option property;
  Properties : option (gmap string property);
  Required : list string;
  AdditionalProperties : bool
}.

(** [&property{}] *)
Definition emptyProperty : property := Property "" "" None None [] false.

(** Assignments to one field of a node. *)
Definition setType (s : string) (p : property) : property :=
  Property s (Format p) (Items p) (Properties p) (Required p)
           (AdditionalProperties p).
Definition setFormat (s : string) (p : property) : property :=
  Property (Type_ p) s (Items p) (Properties p) (Required p)
           (AdditionalProperties p).
Definition setItems (i : option property) (p : property) : property :=
  Property (Type_ p) (Format p) i (Properties p) (Required p)
           (AdditionalProperties p).
Definition setProperties (m : option (gmap string property)) (p : property)
  : property :=
  Property (Type_ p) (Format p) (Items p) m (Required p)
           (AdditionalProperties p).
Definition setRequired (r : list string) (p : property) : property :=
  Property (Type_ p) (Format p) (Items p) (Properties p) r
           (AdditionalProperties p).
Definition setAdditionalProperties (b : bool) (p : property) : property :=
  Property (Type_ p) (Format p) (Items p) (Properties p) (Required p) b.

(** [p.Properties[name] = child]: an assignment to an entry of a nil map
    panics. *)
Definition assignProperty (name : string) (child : property) (p : property)
  : result property :=
  match Properties p with
  | Some m => Ok (setProperties (Some (<[name := child]> m)) p)
  | None => Panic "assignment to entry in nil map"
  end.

(** [type Document struct { Schema string; property }] *)
Record Document := mkDocument {
  Schema : string;
  root : property
}.

Definition defaultSchema : string := "http://json-schema.org/schema#".

(** [NewDocument(schema)] *)
Definition NewDocument (schema : string) : Document :=
  mkDocument schema emptyProperty.

(** [d.setDefaultSchema()] *)
Definition setDefaultSchema (d : Document) : Document :=
  if String.eqb (Schema d) "" then mkDocument defaultSchema (root d) else d.

(** ** Tag parser *)

Definition tagOptions := string.

(** [s[i:]] *)
Definition sliceFrom (s : string) (i : nat) : string :=
  String.substring i (String.length s - i) s.

(** [s[:i]] *)
Definition sliceTo (s : string) (i : nat) : string :=
  String.substring 0 i s.

(** [strings.Index(s, ",")], [None] for -1. *)
Definition indexComma (s : string) : option nat := String.index 0 "," s.

Definition parseTag (tag : string) : string * tagOptions :=
  match indexComma tag with
  | Some idx => (sliceTo tag idx, sliceFrom tag (idx + 1))
  | None => (tag, "")
  end.

(** The loop [for s != ""] of [Contains]; every round strictly shortens
    [s], so [fuel] bounds the number of rounds.  [None]: fuel ran out. *)
Fixpoint Contains_loop (fuel : nat) (s optionName : string) : option bool :=
  match fuel with
  | 0 => None
  | S fuel' =>
      if String.eqb s "" then Some false
      else
        let '(s, next) :=
          match indexComma s with
          | Some i => (sliceTo s i, sliceFrom s (i + 1))
          | None => (s, "")
          end in
        if String.eqb s optionName then Some true
        else Contains_loop fuel' next optionName
  end.

(** [o.Contains(optionName)] *)
Definition Contains (o : tagOptions) (optionName : string) : bool :=
  if Nat.eqb (String.length o) 0 then false
  else default false (Contains_loop (S (String.length o)) o optionName).

(** The serialization name and the tag options of a struct field, as the
    loops of [readFromStruct] and [readFromStructDeep] compute them: the
    name of the [json] tag, the field's own name when the tag gives none. *)
Definition resolvedName (field : reflect.StructField) : string * tagOptions :=
  let tag := reflect.StructTag_Get (reflect.Tag field) "json" in
  let '(name, opts) := parseTag tag in
  (if String.eqb name "" then reflect.Name field else name, opts).

(** ** Kind mapper *)

Definition formatMapping : gmap string (string * string) :=
  {[ "time.Time" := ("string", "date-time") ]}.

Definition kindMapping (k : reflect.Kind) : option string :=
  match k with
  | reflect.Bool => Some "boolean"
  | reflect.Int => Some "integer"
  | reflect.Int8 => Some "integer"
  | reflect.Int16 => Some "integer"
  | reflect.Int32 => Some "integer"
  | reflect.Int64 => Some "integer"
  | reflect.Uint => Some "integer"
  | reflect.Uint8 => Some "integer"
  | reflect.Uint16 => Some "integer"
  | reflect.Uint32 => Some "integer"
  | reflect.Uint64 => Some "integer"
  | reflect.Float32 => Some "number"
  | reflect.Float64 => Some "number"
  | reflect.String => Some "string"
  | reflect.Slice => Some "array"
  | reflect.Struct => Some "object"
  | reflect.Map => Some "object"
  | _ => None
  end.

Definition getTypeFromMapping (t : reflect.rtype)
  : string * string * reflect.Kind :=
  match formatMapping !! reflect.Type_String t with
  | Some v => (v.1, v.2, reflect.String)
  | None =>
      let kind := reflect.Type_Kind t in
      match kindMapping kind with
      | Some v => (v, "", kind)
      | None => ("", "", kind)
      end
  end.

(** ** Shallow mode: the walk over a type descriptor *)

(** The two conditional assignments that open [read] and [readDeep]. *)
Definition setTypeFormat (jsType format : string) (p : property) : property :=
  let p := if String.eqb jsType "" then p else setType jsType p in
  if String.eqb format "" then p else setFormat format p.

(** [readFromSlice], [readFromStruct] and [read] call one another; the
    first two are written over the function they call back. *)
Section shallow_bodies.
Variable read : reflect.rtype → tagOptions → property → result property.

Definition readFromSlice_body (t : reflect.rtype) (p : property)
  : result property :=
  reflect.Type_withElem t (λ elem,
    let '(jsType, _, kind) := getTypeFromMapping elem in
    if bool_decide (kind = reflect.Uint8) then Ok (setType "string" p)
    else if negb (String.eqb jsType "") then
      items ← read elem "" emptyProperty;
      Ok (setItems (Some items) p)
    else Ok p).

(** [for name, property := range embedded { m[name] = property }] *)
Definition spliceProperties (embedded : option (gmap string property))
    (p : property) : result property :=
  match embedded with
  | None => Ok p
  | Some em =>
      map_fold (λ name child acc, acc ≫= assignProperty name child) (Ok p) em
  end.

(** One round of the loop of [readFromStruct]. *)
Definition readField (p : property) (field : reflect.StructField)
  : result property :=
  let tag := reflect.StructTag_Get (reflect.Tag field) "json" in
  let '(name, opts) := parseTag tag in
  let name := if String.eqb name "" then reflect.Name field else name in
  if String.eqb name "-" then Ok p
  else if reflect.Anonymous field then
    embeddedProperty ← read (reflect.Typ field) opts emptyProperty;
    p ← spliceProperties (Properties embeddedProperty) p;
    Ok (setRequired (Required p ++ Required embeddedProperty) p)
  else
    child ← read (reflect.Typ field) opts emptyProperty;
    p ← assignProperty name child p;
    if negb (Contains opts "omitempty")
    then Ok (setRequired (Required p ++ [name]) p)
    else Ok p.

Definition readFromStruct_body (t : reflect.rtype) (p : property)
  : result property :=
  let p := setType "object" p in
  let p := setProperties (Some ∅) p in
  let p := setAdditionalProperties false p in
  reflect.Type_withFields t (λ fields, foldM readField fields p).

End shallow_bodies.

Definition readFromMap (t : reflect.rtype) (p : property) : result property :=
  elem ← reflect.Type_Elem t;
  let '(jsType, format, _) := getTypeFromMapping elem in
  if negb (String.eqb jsType "") then
    Ok (setProperties
          (Some {[ ".*" := Property jsType format None None [] false ]}) p)
  else Ok (setAdditionalProperties true p).

Fixpoint read (t : reflect.rtype) (opts : tagOptions) (p : property)
  {struct t} : result property :=
  let '(jsType, format, kind) := getTypeFromMapping t in
  let p := setTypeFormat jsType format p in
  match kind with
  | reflect.Slice => readFromSlice_body read t p
  | reflect.Map => readFromMap t p
  | reflect.Struct => readFromStruct_body read t p
  | reflect.Ptr => reflect.Type_withElem t (λ elem, read elem opts p)
  | _ => Ok p
  end.

Definition readFromSlice := readFromSlice_body read.
Definition readFromStruct := readFromStruct_body read.

(** ** Deep mode: the walk over a value *)

Fixpoint mapKeyToString (key : reflect.Value) : result string :=
  let keyKind := reflect.Value_Kind key in
  if bool_decide (keyKind = reflect.Interface) then
    reflect.Value_withElem key (λ elem, mapKeyToString elem)
  else Ok (reflect.Value_String key).

(** [v.Index(0)]: panics on a slice without elements. *)
Definition index0 {A} (elems : list reflect.Value)
    (k : reflect.Value → result A) : result A :=
  match elems with
  | x :: _ => k x
  | [] => Panic "reflect: slice index out of range"
  end.

Section deep_bodies.
Variable readDeep : reflect.Value → tagOptions → property → result property.

Definition readFromSliceDeep_body (v : reflect.Value) (p : property)
  : result property :=
  reflect.Value_withElems v (λ elem elems,
    if Nat.eqb (length elems) 0 then
      let '(jsType, _, kind) := getTypeFromMapping elem in
      if bool_decide (kind = reflect.Uint8) then Ok (setType "string" p)
      else if negb (String.eqb jsType "") then
        if Nat.eqb (length elems) 0 then
          items ← read elem "" emptyProperty;
          Ok (setItems (Some items) p)
        else
          index0 elems (λ first,
            items ← readDeep first "" emptyProperty;
            Ok (setItems (Some items) p))
      else Ok p
    else
      index0 elems (λ first,
        t ← reflect.Value_Type first;
        let '(_, _, kind) := getTypeFromMapping t in
        if bool_decide (kind = reflect.Uint8) then Ok (setType "string" p)
        else
          items ← readDeep first "" emptyProperty;
          Ok (setItems (Some items) p))).

(** One round of the loop over [v.MapRange()]. *)
Definition readEntryDeep (properties : gmap string property)
    (entry : reflect.Value * reflect.Value)
  : result (gmap string property) :=
  let '(key, value) := entry in
  keyName ← mapKeyToString key;
  child ← readDeep value "" emptyProperty;
  Ok (<[keyName := child]> properties).

Definition readFromMapDeep_body (v : reflect.Value) (p : property)
  : result property :=
  reflect.Value_withMapRange v (λ entries,
    properties ← foldM readEntryDeep entries ∅;
    if Nat.ltb 0 (size properties)
    then Ok (setProperties (Some properties) p)
    else Ok p).

(** One round of the loop of [readFromStructDeep]: the field descriptor
    [t.Field(i)] and the field value [v.Field(i)]. *)
Definition readFieldDeep (p : property)
    (fv : reflect.StructField * reflect.Value) : result property :=
  let '(field, value) := fv in
  let tag := reflect.StructTag_Get (reflect.Tag field) "json" in
  let '(name, opts) := parseTag tag in
  let name := if String.eqb name "" then reflect.Name field else name in
  if String.eqb name "-" then Ok p
  else if reflect.Anonymous field then
    embeddedProperty ← readDeep value opts emptyProperty;
    p ← spliceProperties (Properties embeddedProperty) p;
    Ok (setRequired (Required p ++ Required embeddedProperty) p)
  else
    child ← readDeep value opts emptyProperty;
    p ← assignProperty name child p;
    if negb (Contains opts "omitempty")
    then Ok (setRequired (Required p ++ [name]) p)
    else Ok p.

Definition readFromStructDeep_body (v : reflect.Value) (p : property)
  : result property :=
  let p := setType "object" p in
  let p := setProperties (Some ∅) p in
  let p := setAdditionalProperties false p in
  reflect.Value_withFields v (λ fields, foldM readFieldDeep fields p).

End deep_bodies.

Fixpoint readDeep (v : reflect.Value) (opts : tagOptions) (p : property)
  {struct v} : result property :=
  if negb (reflect.Value_IsValid v) then Ok (setType "null" p)
  else
    t ← reflect.Value_Type v;
    let '(jsType, format, kind) := getTypeFromMapping t in
    let p := setTypeFormat jsType format p in
    match kind with
    | reflect.Slice => readFromSliceDeep_body readDeep v p
    | reflect.Map => readFromMapDeep_body readDeep v p
    | reflect.Struct => readFromStructDeep_body readDeep v p
    | reflect.Ptr | reflect.Interface =>
        reflect.Value_withElem v (λ elem, readDeep elem opts p)
    | _ => Ok p
    end.

Definition readFromSliceDeep := readFromSliceDeep_body readDeep.
Definition readFromMapDeep := readFromMapDeep_body readDeep.
Definition readFromStructDeep := readFromStructDeep_body readDeep.

(** ** Document: the two entry points *)

(** [d.Read(variable)] *)
Definition Read (variable : option reflect.Value) (d : Document)
  : result Document :=
  let d := setDefaultSchema d in
  let value := reflect.ValueOf variable in
  t ← reflect.Value_Type value;
  r ← read t "" (root d);
  Ok (mkDocument (Schema d) r).

(** [d.ReadDeep(variable)] *)
Definition ReadDeep (variable : option reflect.Value) (d : Document)
  : result Document :=
  let d := setDefaultSchema d in
  let value := reflect.ValueOf variable in
  r ← readDeep value "" (root d);
  Ok (mkDocument (Schema d) r).

(** ** Serialization

    [Marshal] is [json.MarshalIndent(d, "", "    ")].  The encoder of Go's
    [encoding/json] is modelled as far as a [Document] exercises it: struct
    fields in declaration order under the names of their [json] tags, the
    fields of the embedded [property] promoted into the document object,
    [omitempty] dropping empty strings, nil pointers, maps and slices
    without entries and [false]; a map is read through [MapRange], whose
    order Go leaves unspecified, and its entries are then sorted by key.
    No part of a [Document] can make the encoder fail, so the model returns
    the text alone. *)

Inductive json :=
| JString (s : string)
| JBool (b : bool)
| JArray (elems : list json)
| JObject (members : list (string * json)).

(** The order of [strings.Compare] on the keys of two entries. *)
Definition keyLe (a b : string * json) : Prop := String.le a.1 b.1.

#[global] Instance keyLe_dec : RelDecision keyLe.
Proof. intros a b. unfold keyLe. apply _. Defined.

Definition sortByKey (entries : list (string * json)) : list (string * json) :=
  merge_sort keyLe entries.

(** A struct field tagged [omitempty]. *)
Definition omitempty (name : string) (empty : bool) (j : json)
  : list (string * json) :=
  if empty then [] else [(name, j)].

Definition newline : string := String (Ascii.ascii_of_nat 10) "".

Fixpoint indentation (depth : nat) : string :=
  match depth with
  | 0 => ""
  | S d => "    " +:+ indentation d
  end.

(** An array or object of the indented output; without members the two
    brackets stand together. *)
Definition bracketed (open close : string) (depth : nat) (items : list string)
  : string :=
  match items with
  | [] => open +:+ close
  | _ =>
      open +:+ newline +:+ indentation (S depth)
      +:+ String.concat ("," +:+ newline +:+ indentation (S depth)) items
      +:+ newline +:+ indentation depth +:+ close
  end.

Section Marshal.
(** The order in which [MapRange] yields the entries of a map.  The
    encoder ranges over the map, sorts what it got by key and then encodes
    the children; here the children are encoded first and the encoded
    entries ranged over, which gives the same text and lets the recursion
    go through the map. *)
Variable mapRange : gmap string json → list (string * json).
(** The encoder's string literal: quotes and escapes. *)
Variable quote : string → string.

Fixpoint propertyMembers (p : property) : list (string * json) :=
  omitempty "type" (String.eqb (Type_ p) "") (JString (Type_ p))
  ++ omitempty "format" (String.eqb (Format p) "") (JString (Format p))
  ++ match Items p with
     | Some items => [("items", JObject (propertyMembers items))]
     | None => []
     end
  ++ match Properties p with
     | Some m =>
         let encoded : gmap string json :=
           (λ child, JObject (propertyMembers child)) <$> m in
         omitempty "properties" (Nat.eqb (size m) 0)
                   (JObject (sortByKey (mapRange encoded)))
     | None => []
     end
  ++ omitempty "required" (Nat.eqb (length (Required p)) 0)
               (JArray (JString <$> Required p))
  ++ omitempty "additionalProperties" (negb (AdditionalProperties p))
               (JBool true).

Definition encodeDocument (d : Document) : json :=
  JObject (omitempty "$schema" (String.eqb (Schema d) "") (JString (Schema d))
           ++ propertyMembers (root d)).

Fixpoint render (depth : nat) (j : json) : string :=
  match j with
  | JString s => quote s
  | JBool b => if b then "true" else "false"
  | JArray elems => bracketed "[" "]" depth (map (render (S depth)) elems)
  | JObject members =>
      bracketed "{" "}" depth
        (map (λ kv, quote kv.1 +:+ ": " +:+ render (S depth) kv.2) members)
  end.

(** [d.Marshal()] *)
Definition Marshal (d : Document) : string := render 0 (encodeDocument d).

(** [d.String()]: the text of [Marshal], its error dropped. *)
Definition Document_String (d : Document) : string := Marshal d.

End Marshal.

(** The encoder's string literal on text without quotes, backslashes,
    control characters, [<], [>], [&] or bytes above 127: the text between
    two quotes. *)
Definition quotePlain (s : string) : string :=
  String (Ascii.ascii_of_nat 34) (s +:+ String (Ascii.ascii_of_nat 34) "").


(** ** Notions used to state what the walk computes *)

(** What one round of the loop over the members of a struct adds to the
    parent node, given the node [node] inferred for the member: the entries
    written into [Properties] and the names appended to [Required]. *)
Definition memberProperties (field : reflect.StructField) (node : property)
  : gmap string property :=
  let '(name, _) := resolvedName field in
  if String.eqb name "-" then ∅
  else if reflect.Anonymous field then default ∅ (Properties node)
  else {[ name := node ]}.

Definition memberRequired (field : reflect.StructField) (node : property)
  : list string :=
  let '(name, opts) := resolvedName field in
  if String.eqb name "-" then []
  else if reflect.Anonymous field then Required node
  else if Contains opts "omitempty" then [] else [name].

(** The node of a member: the outcome of the walk on a fresh node. *)
Definition nodeOf (r : result property) : property :=
  match r with
  | Ok node => node
  | Panic _ => emptyProperty
  end.

Definition memberNode (field : reflect.StructField) : property :=
  nodeOf (read (reflect.Typ field) (resolvedName field).2 emptyProperty).

Definition memberNodeDeep (fv : reflect.StructField * reflect.Value)
  : property :=
  nodeOf (readDeep fv.2 (resolvedName fv.1).2 emptyProperty).

(** A member with its node, in shallow and in deep mode. *)
Definition shallowMember (field : reflect.StructField)
  : reflect.StructField * property :=
  (field, memberNode field).

Definition deepMember (fv : reflect.StructField * reflect.Value)
  : reflect.StructField * property :=
  (fv.1, memberNodeDeep fv).

(** The parent's [Properties] and [Required] after the rounds of the
    members [members], each given with its node, from the map [m] and the
    list [req]. *)
Definition propertiesAfter (members : list (reflect.StructField * property))
    (m : gmap string property) : gmap string property :=
  foldl (λ acc fn, memberProperties fn.1 fn.2 ∪ acc) m members.

Definition requiredAfter (members : list (reflect.StructField * property))
    (req : list string) : list string :=
  req ++ concat (map (λ fn, memberRequired fn.1 fn.2) members).

(** The node on which the loop over the members starts. *)
Definition structNode (p : property) : property :=
  setAdditionalProperties false (setProperties (Some ∅) (setType "object" p)).

(** A value as [reflect] hands it out: every element of a slice or an
    array, every key and value of a map and every field of a struct is a
    valid Value; only the target of a pointer and the dynamic value of an
    interface may be the zero Value. *)
Fixpoint wfValue (v : reflect.Value) : bool :=
  match v with
  | reflect.VArray _ _ elems | reflect.VSlice _ _ elems =>
      forallb (λ x, reflect.Value_IsValid x && wfValue x) elems
  | reflect.VMap _ _ _ entries =>
      forallb (λ kv, reflect.Value_IsValid kv.1 && wfValue kv.1
                     && reflect.Value_IsValid kv.2 && wfValue kv.2) entries
  | reflect.VStruct _ fields =>
      forallb (λ fv, reflect.Value_IsValid fv.2 && wfValue fv.2) fields
  | reflect.VPtr _ _ pointee => wfValue pointee
  | reflect.VInterface _ dyn => wfValue dyn
  | _ => true
  end.

(** A map key with the interfaces around it removed: the value whose
    [String] method [mapKeyToString] ends up calling. *)
Fixpoint unwrapKey (key : reflect.Value) : reflect.Value :=
  match key with
  | reflect.VInterface _ dyn => unwrapKey dyn
  | _ => key
  end.

(** How a walk on a node [old] that is not fresh relates to the same walk
    on a fresh node: [r], the node after the walk on [old], has the type,
    format, items and properties of [fresh] where [fresh] sets them and
    those of [old] where it does not; its required names are those of
    [old] followed by those of [fresh]; its [AdditionalProperties] is set
    if that of [fresh] is, and only if that of [fresh] or of [old] is. *)
Definition layered (old fresh r : property) : Prop :=
  Type_ r = (if String.eqb (Type_ fresh) "" then Type_ old else Type_ fresh) ∧
  Format r
    = (if String.eqb (Format fresh) "" then Format old else Format fresh) ∧
  Items r
    = (match Items fresh with Some i => Some i | None => Items old end) ∧
  Properties r
    = (match Properties fresh with
       | Some m => Some m
       | None => Properties old
       end) ∧
  Required r = (Required old ++ Required fresh)%list ∧
  (AdditionalProperties fresh = true → AdditionalProperties r = true) ∧
  (AdditionalProperties r = true →
   AdditionalProperties fresh = true ∨ AdditionalProperties old = true).

(** The height of a schema tree, the measure of the inductions over it. *)
Fixpoint height (p : property) : nat :=
  S (Nat.max
       (match Items p with Some items => height items | None => 0 end)
       (match Properties p with
        | Some m => map_fold (λ _ child acc, Nat.max (height child) acc) 0 m
        | None => 0
        end)).

(** ** Go types and values used as concrete inputs *)

Module Sample.

Definition tBool : reflect.rtype := reflect.TBasic "bool" reflect.BBool.
Definition tInt : reflect.rtype := reflect.TBasic "int" reflect.BInt.
Definition tInt64 : reflect.rtype := reflect.TBasic "int64" reflect.BInt64.
Definition tUint8 : reflect.rtype := reflect.TBasic "uint8" reflect.BUint8.
Definition tString : reflect.rtype := reflect.TBasic "string" reflect.BString.
Definition tAny : reflect.rtype := reflect.TInterface "interface {}".

(** [[]byte] and [map[string]int] *)
Definition tBytes : reflect.rtype := reflect.SliceOf tUint8.
Definition tMapStringInt : reflect.rtype := reflect.MapOf tString tInt.

Definition vInt (data : string) : reflect.Value :=
  reflect.VBasic "int" reflect.BInt data.
Definition vInt64 (data : string) : reflect.Value :=
  reflect.VBasic "int64" reflect.BInt64 data.
Definition vByte (data : string) : reflect.Value :=
  reflect.VBasic "uint8" reflect.BUint8 data.
Definition vString (data : string) : reflect.Value :=
  reflect.VBasic "string" reflect.BString data.

(** A struct field with the given [json] tag, none when [tag] is empty. *)
Definition field (name : string) (t : reflect.rtype) (tag : string)
    (anonymous : bool) : reflect.StructField :=
  reflect.mkStructField name t
    (if String.eqb tag "" then [] else [("json", tag)]) anonymous.

(** [struct { A bool; B string `json:",omitempty"` }] *)
Definition fieldA : reflect.StructField := field "A" tBool "" false.
Definition fieldB : reflect.StructField :=
  field "B" tString ",omitempty" false.
Definition tAB : reflect.rtype := reflect.TStruct "main.AB" [fieldA; fieldB].

(** [type EmbeddedType struct { Zoo string }] *)
Definition fieldZoo : reflect.StructField := field "Zoo" tString "" false.
Definition tEmbeddedType : reflect.rtype :=
  reflect.TStruct "main.EmbeddedType" [fieldZoo].
Definition vEmbeddedType : reflect.Value :=
  reflect.VStruct "main.EmbeddedType" [(fieldZoo, vString "")].

(** [struct { EmbeddedType }] and [struct { EmbeddedType `json:"-"` }] *)
Definition fieldEmbedded : reflect.StructField :=
  field "EmbeddedType" tEmbeddedType "" true.
Definition fieldEmbeddedSkipped : reflect.StructField :=
  field "EmbeddedType" tEmbeddedType "-" true.
Definition tOuter : reflect.rtype :=
  reflect.TStruct "main.Outer" [fieldEmbedded].
Definition vOuter : reflect.Value :=
  reflect.VStruct "main.Outer" [(fieldEmbedded, vEmbeddedType)].
Definition tOuterSkipped : reflect.rtype :=
  reflect.TStruct "main.OuterSkipped" [fieldEmbeddedSkipped].
Definition vOuterSkipped : reflect.Value :=
  reflect.VStruct "main.OuterSkipped" [(fieldEmbeddedSkipped, vEmbeddedType)].

(** [type MyInt int] and
    [map[interface{}]string{int(1): "a", MyInt(1): "b"}] *)
Definition tMyInt : reflect.rtype := reflect.TBasic "main.MyInt" reflect.BInt.
Definition vMyInt (data : string) : reflect.Value :=
  reflect.VBasic "main.MyInt" reflect.BInt data.
Definition keyInt : reflect.Value :=
  reflect.VInterface "interface {}" (vInt "1").
Definition keyMyInt : reflect.Value :=
  reflect.VInterface "interface {}" (vMyInt "1").
Definition vMapAnyString : reflect.Value :=
  reflect.VMap "map[interface {}]string" tAny tString
    [(keyInt, vString "a"); (keyMyInt, vString "b")].

(** [map[int]string{1: "a", 2: "b"}] *)
Definition vMapIntString : reflect.Value :=
  reflect.VMap "map[int]string" tInt tString
    [(vInt "1", vString "a"); (vInt "2", vString "b")].

(** A value of [struct { A bool; B string `json:",omitempty"` }] *)
Definition vAB : reflect.Value :=
  reflect.VStruct "main.AB"
    [(fieldA, reflect.VBasic "bool" reflect.BBool "false");
     (fieldB, vString "")].

(** The document that [Read] leaves for a value of
    [struct { A bool; B string `json:",omitempty"` }] *)
Definition docAB : Document :=
  mkDocument defaultSchema
    (Property "object" "" None
       (Some {[ "A" := Property "boolean" "" None None [] false;
                "B" := Property "string" "" None None [] false ]})
       ["A"] false).

(** An iteration order other than that of [map_to_list]. *)
Definition reverseRange (m : gmap string json) : list (string * json) :=
  reverse (map_to_list m).

(** The example of the README:
    [type Item struct { Value string }] and
    [type ExampleBasic struct {
       Foo bool `json:"foo"`; Bar string `json:",omitempty"`; Qux int8;
       Baz []string; EmbeddedType; List []Item }] *)
Definition tInt8 : reflect.rtype := reflect.TBasic "int8" reflect.BInt8.
Definition tItem : reflect.rtype :=
  reflect.TStruct "main.Item" [field "Value" tString "" false].
Definition tExampleBasic : reflect.rtype :=
  reflect.TStruct "main.ExampleBasic"
    [field "Foo" tBool "foo" false;
     field "Bar" tString ",omitempty" false;
     field "Qux" tInt8 "" false;
     field "Baz" (reflect.SliceOf tString) "" false;
     field "EmbeddedType" tEmbeddedType "" true;
     field "List" (reflect.SliceOf tItem) "" false].

(** A string literal between apostrophes, to show the layout of the
    output in a string of this file. *)
Definition quoteApostrophe (s : string) : string := "'" +:+ s +:+ "'".

End Sample.

(** ** Notions used to state further properties of the code *)

(** The character of the string ",". *)
Definition comma : Ascii.ascii := Ascii.ascii_of_nat 44.

(** Whether a comma occurs in a string. *)
Fixpoint hasComma (s : string) : bool :=
  match s with
  | "" => false
  | String c s' => Ascii.eqb c comma || hasComma s'
  end.

(** The comma-separated pieces of a string, as a scan over its characters
    cuts them: "a,b" has the pieces "a" and "b", "a," the pieces "a" and
    "", the empty string the one piece "". *)
Fixpoint splitComma (s : string) : list string :=
  match s with
  | "" => [""]
  | String c s' =>
      if Ascii.eqb c comma then "" :: splitComma s'
      else
        match splitComma s' with
        | piece :: pieces => String c piece :: pieces
        | [] => [String c ""]
        end
  end.

(** A member that the struct loops store under its resolved name: neither
    skipped by the name "-" nor embedded. *)
Definition namedMember (field : reflect.StructField) : Prop :=
  (resolvedName field).1 ≠ "-" ∧ reflect.Anonymous field = false.

(** The resolved names of the members whose tag options do not contain
    "omitempty", in the order of the members. *)
Definition requiredNames (fields : list reflect.StructField) : list string :=
  (λ f, (resolvedName f).1)
    <$> filter (λ f, Contains (resolvedName f).2 "omitempty" = false) fields.

(** The shape of one node of a schema: items only under the type "array",
    properties only under the type "object", [AdditionalProperties] only
    under the type "object" and without properties, and every required
    name a key of the properties. *)
Definition nodeShape (p : property) : Prop :=
  (is_Some (Items p) → Type_ p = "array") ∧
  (is_Some (Properties p) → Type_ p = "object") ∧
  (AdditionalProperties p = true → Type_ p = "object" ∧ Properties p = None) ∧
  (∀ name, name ∈ Required p →
           ∃ m, Properties p = Some m ∧ is_Some (m !! name)).

(** A schema tree all of whose nodes have that shape. *)
Inductive Shaped : property → Prop :=
| Shaped_node (p : property) :
    nodeShape p →
    (∀ items, Items p = Some items → Shaped items) →
    (∀ m key child, Properties p = Some m → m !! key = Some child →
                    Shaped child) →
    Shaped p.

(** The values on which the two modes have the same to go by: values built
    from basic values, functions, channels and arrays by structs, pointers
    that are not nil and slices, every field, pointer target and slice
    element being of the type its place declares; a slice with elements
    has an element type that [getTypeFromMapping] gives a type string.
    Maps, interface values and the zero Value are not among them. *)
Fixpoint plainValue (v : reflect.Value) : Prop :=
  match v with
  | reflect.VBasic _ _ _ | reflect.VFunc _ | reflect.VChan _ _
  | reflect.VArray _ _ _ => True
  | reflect.VPtr _ elem pointee =>
      reflect.Value_Type pointee = Ok elem ∧ plainValue pointee
  | reflect.VSlice _ elem elems =>
      (elems ≠ [] → (getTypeFromMapping elem).1.1 ≠ "") ∧
      foldr (λ x rest, (reflect.Value_Type x = Ok elem ∧ plainValue x) ∧ rest)
            True elems
  | reflect.VStruct _ fields =>
      foldr (λ fx rest,
               (reflect.Value_Type fx.2 = Ok (reflect.Typ fx.1)
                ∧ plainValue fx.2) ∧ rest)
            True fields
  | reflect.VZero | reflect.VInterface _ _ | reflect.VMap _ _ _ _ => False
  end.

(** The property name [readFromMapDeep] gives a key: the text
    [mapKeyToString] ends on, [String()] of the key with the interfaces
    around it removed. *)
Definition keyName (key : reflect.Value) : string :=
  reflect.Value_String (unwrapKey key).

(** The node of one map entry: [readDeep] on the entry's value, from a
    fresh node and without options. *)
Definition entryNode (value : reflect.Value) : property :=
  nodeOf (readDeep value "" emptyProperty).

(** The properties map after the rounds of [readFromMapDeep] over
    [entries], in the order of the iteration, from the map [m]. *)
Definition entriesAfter (entries : list (reflect.Value * reflect.Value))
    (m : gmap string property) : gmap string property :=
  foldl (λ m kv, <[keyName kv.1 := entryNode kv.2]> m) m entries.

(** The node [r] with its list of required names written twice. *)
Definition requiredTwice (r : property) : property :=
  setRequired (Required r ++ Required r) r.

(** ** Two walks of one value

    Go fixes no order for the iteration over a map: every [MapRange] may
    yield the entries in another order.  A [reflect.Value] lists the
    entries of a map in the order one walk meets them; what another walk
    of the same Go value meets is a value [reordered] from it, the same
    but for the order of the entries of the maps in it.  (A key holds no
    map: map types are not comparable.) *)
Inductive reordered : reflect.Value → reflect.Value → Prop :=
| reordered_zero : reordered reflect.VZero reflect.VZero
| reordered_basic name b data :
    reordered (reflect.VBasic name b data) (reflect.VBasic name b data)
| reordered_interface name dyn dyn' :
    reordered dyn dyn' →
    reordered (reflect.VInterface name dyn) (reflect.VInterface name dyn')
| reordered_func name : reordered (reflect.VFunc name) (reflect.VFunc name)
| reordered_chan name elem :
    reordered (reflect.VChan name elem) (reflect.VChan name elem)
| reordered_array name elem elems elems' :
    Forall2 reordered elems elems' →
    reordered (reflect.VArray name elem elems)
              (reflect.VArray name elem elems')
| reordered_slice name elem elems elems' :
    Forall2 reordered elems elems' →
    reordered (reflect.VSlice name elem elems)
              (reflect.VSlice name elem elems')
| reordered_map name key elem entries mid entries' :
    Forall2 (λ kv kv', kv.1 = kv'.1 ∧ reordered kv.2 kv'.2) entries mid →
    mid ≡ₚ entries' →
    reordered (reflect.VMap name key elem entries)
              (reflect.VMap name key elem entries')
| reordered_ptr name elem pointee pointee' :
    reordered pointee pointee' →
    reordered (reflect.VPtr name elem pointee)
              (reflect.VPtr name elem pointee')
| reordered_struct name fields fields' :
    Forall2 (λ fv fv', fv.1 = fv'.1 ∧ reordered fv.2 fv'.2) fields fields' →
    reordered (reflect.VStruct name fields) (reflect.VStruct name fields').

(** The keys of every map in the value get names that differ from one
    another, so that no entry of [readFromMapDeep] replaces another. *)
Fixpoint distinctNames (v : reflect.Value) : bool :=
  match v with
  | reflect.VArray _ _ elems | reflect.VSlice _ _ elems =>
      forallb distinctNames elems
  | reflect.VMap _ _ _ entries =>
      bool_decide (NoDup (keyName <$> entries.*1))
      && forallb (λ kv, distinctNames kv.2) entries
  | reflect.VStruct _ fields => forallb (λ fv, distinctNames fv.2) fields
  | reflect.VPtr _ _ pointee => distinctNames pointee
  | reflect.VInterface _ dyn => distinctNames dyn
  | _ => true
  end.

(** ** A walk on a node that is not fresh *)

(** Whether [read] on the type ends in [readFromStruct]: the type is a
    struct type, or a pointer type to such a type, and no type on the way
    is in the named-type table. *)
Fixpoint walkedAsStruct (t : reflect.rtype) : bool :=
  match t with
  | reflect.TPtr name elem =>
      match formatMapping !! name with
      | Some _ => false
      | None => walkedAsStruct elem
      end
  | reflect.TStruct name _ =>
      match formatMapping !! name with Some _ => false | None => true end
  | _ => false
  end.

(** Whether [readDeep] on the value ends in [readFromStructDeep]: the value
    is a struct, or a pointer or an interface value that leads to one, and
    no type on the way is in the named-type table. *)
Fixpoint walkedAsStructDeep (v : reflect.Value) : bool :=
  match v with
  | reflect.VPtr name _ inner | reflect.VInterface name inner =>
      match formatMapping !! name with
      | Some _ => false
      | None => walkedAsStructDeep inner
      end
  | reflect.VStruct name _ =>
      match formatMapping !! name with Some _ => false | None => true end
  | _ => false
  end.

(** The node after a walk on the node [old], from the node [fresh] that the
    same walk makes of a fresh node.  Type, format, items and properties are
    those of [fresh] where [fresh] has them and those of [old] where it has
    not; the required names of [fresh] follow those of [old].  A walk that
    ends in the struct walker ([struct]) assigns [false] to
    [AdditionalProperties]; any other walk leaves it set if it was, and
    sets it if [fresh] has it set. *)
Definition overlay (struct : bool) (old fresh : property) : property :=
  Property
    (if String.eqb (Type_ fresh) "" then Type_ old else Type_ fresh)
    (if String.eqb (Format fresh) "" then Format old else Format fresh)
    (match Items fresh with Some i => Some i | None => Items old end)
    (match Properties fresh with Some m => Some m | None => Properties old end)
    (Required old ++ Required fresh)
    (if struct then false
     else AdditionalProperties fresh || AdditionalProperties old).
(** * Properties of the walk *)

(** ** The result monad and the loop combinator *)

Lemma bind_Ok {A B} (f : A → result B) (a : A) : Ok a ≫= f = f a.
Proof. reflexivity. Qed.

(** A loop whose every round returns normally from a state satisfying [I],
    and keeps [I], returns normally. *)
Lemma foldM_invariant {A S} (I : S → Prop) (f : S → A → result S)
    (l : list A) (s : S) :
  I s →
  Forall (λ x, ∀ s, I s → ∃ s', f s x = Ok s' ∧ I s') l →
  ∃ s', foldM f l s = Ok s' ∧ I s'.
Proof.
  intros Hs Hl. revert s Hs.
  induction Hl as [|x l Hx _ IH]; intros s Hs; simpl; [eauto|].
  destruct (Hx s Hs) as (s' & -> & Hs'). simpl. by apply IH.
Qed.

(** ** Kind mapper *)

Lemma formatMapping_lookup (name : string) :
  formatMapping !! name =
    if decide (name = "time.Time") then Some ("string", "date-time") else None.
Proof.
  unfold formatMapping. case_decide as Hn.
  - subst. apply lookup_singleton_eq.
  - by apply lookup_singleton_ne.
Qed.

Lemma formatMapping_star (s : string) : formatMapping !! ("*" +:+ s) = None.
Proof. rewrite formatMapping_lookup. by case_decide. Qed.

Lemma getTypeFromMapping_unlisted (t : reflect.rtype) :
  formatMapping !! reflect.Type_String t = None →
  getTypeFromMapping t =
    (default "" (kindMapping (reflect.Type_Kind t)), "", reflect.Type_Kind t).
Proof.
  intros Hn. unfold getTypeFromMapping. rewrite Hn.
  by destruct (kindMapping (reflect.Type_Kind t)).
Qed.

Lemma getTypeFromMapping_listed (t : reflect.rtype) :
  reflect.Type_String t = "time.Time" →
  getTypeFromMapping t = ("string", "date-time", reflect.String).
Proof. intros Hn. unfold getTypeFromMapping. by rewrite Hn. Qed.

Lemma getTypeFromMapping_cases (t : reflect.rtype) :
  getTypeFromMapping t = ("string", "date-time", reflect.String) ∨
  getTypeFromMapping t =
    (default "" (kindMapping (reflect.Type_Kind t)), "", reflect.Type_Kind t).
Proof.
  destruct (decide (reflect.Type_String t = "time.Time")) as [Hn|Hn].
  - left. by apply getTypeFromMapping_listed.
  - right. apply getTypeFromMapping_unlisted.
    rewrite formatMapping_lookup. by case_decide.
Qed.

Lemma setTypeFormat_empty (p : property) : setTypeFormat "" "" p = p.
Proof. reflexivity. Qed.

(** ** Unfolding the walkers *)

Lemma read_eq (t : reflect.rtype) (opts : tagOptions) (p : property) :
  read t opts p =
    let '(jsType, format, kind) := getTypeFromMapping t in
    let p := setTypeFormat jsType format p in
    match kind with
    | reflect.Slice => readFromSlice t p
    | reflect.Map => readFromMap t p
    | reflect.Struct => readFromStruct t p
    | reflect.Ptr => reflect.Type_withElem t (λ elem, read elem opts p)
    | _ => Ok p
    end.
Proof. destruct t; reflexivity. Qed.

Lemma readDeep_eq (v : reflect.Value) (opts : tagOptions) (p : property) :
  readDeep v opts p =
    if negb (reflect.Value_IsValid v) then Ok (setType "null" p)
    else
      t ← reflect.Value_Type v;
      let '(jsType, format, kind) := getTypeFromMapping t in
      let p := setTypeFormat jsType format p in
      match kind with
      | reflect.Slice => readFromSliceDeep v p
      | reflect.Map => readFromMapDeep v p
      | reflect.Struct => readFromStructDeep v p
      | reflect.Ptr | reflect.Interface =>
          reflect.Value_withElem v (λ elem, readDeep elem opts p)
      | _ => Ok p
      end.
Proof. destruct v; reflexivity. Qed.

Lemma mapKeyToString_eq (key : reflect.Value) :
  mapKeyToString key =
    if bool_decide (reflect.Value_Kind key = reflect.Interface) then
      reflect.Value_withElem key (λ elem, mapKeyToString elem)
    else Ok (reflect.Value_String key).
Proof. destruct key; reflexivity. Qed.

#[global] Arguments read : simpl never.
#[global] Arguments readDeep : simpl never.
#[global] Arguments mapKeyToString : simpl never.
#[global] Arguments readFromStruct : simpl never.
#[global] Arguments readFromStructDeep : simpl never.

Lemma Value_Type_valid (v : reflect.Value) :
  reflect.Value_IsValid v = true → ∃ t, reflect.Value_Type v = Ok t.
Proof. destruct v; simpl; intros; by eauto. Qed.

(** A pointer type that is not in the named-type table is walked as its
    element type, on the same node and with the same tag options. *)
Lemma read_pointer (name : string) (elem : reflect.rtype) opts p :
  formatMapping !! name = None →
  read (reflect.TPtr name elem) opts p = read elem opts p.
Proof.
  intros Hn. rewrite read_eq, getTypeFromMapping_unlisted by done. done.
Qed.

Lemma readDeep_pointer (name : string) (elem : reflect.rtype)
    (pointee : reflect.Value) opts p :
  formatMapping !! name = None →
  readDeep (reflect.VPtr name elem pointee) opts p = readDeep pointee opts p.
Proof.
  intros Hn. rewrite readDeep_eq. simpl.
  rewrite getTypeFromMapping_unlisted by done. done.
Qed.

(** ** Tag parser *)

Lemma length_substring_le (s : string) (n m : nat) :
  (String.length (String.substring n m s) ≤ m)%nat.
Proof.
  revert n m. induction s as [|c s IH]; intros [|n] [|m]; simpl; try lia.
  - specialize (IH 0 m). lia.
  - apply IH.
  - apply IH.
Qed.

Lemma length_sliceFrom (s : string) (i : nat) :
  (String.length (sliceFrom s i) ≤ String.length s - i)%nat.
Proof. apply length_substring_le. Qed.

(** The loop of [Contains] ends within the fuel [Contains] gives it. *)
Lemma Contains_loop_terminates (fuel : nat) (s optionName : string) :
  (String.length s < fuel)%nat → is_Some (Contains_loop fuel s optionName).
Proof.
  revert s. induction fuel as [|fuel IH]; intros s Hlen; [lia|].
  simpl. destruct (String.eqb_spec s "") as [->|Hs]; [by eexists|].
  assert (0 < String.length s)%nat by (destruct s; [done | simpl; lia]).
  destruct (indexComma s) as [i|].
  - destruct (String.eqb (sliceTo s i) optionName); [by eexists|].
    apply IH. pose proof (length_sliceFrom s (i + 1)). lia.
  - destruct (String.eqb s optionName); [by eexists|].
    apply IH. simpl. lia.
Qed.

(** So the default of [Contains] for a loop out of fuel is never taken. *)
Lemma Contains_loop_result (o : tagOptions) (optionName : string) :
  Contains_loop (S (String.length o)) o optionName
    = Some (Contains o optionName).
Proof.
  unfold Contains.
  destruct (Contains_loop_terminates (S (String.length o)) o optionName)
    as [b Hb]; [lia|].
  rewrite Hb. destruct o as [|c o]; [|done].
  simpl in Hb. by injection Hb as <-.
Qed.

Lemma Contains_omitempty :
  Contains "omitempty" "omitempty" = true ∧
  Contains "string,omitempty" "omitempty" = true ∧
  Contains "omitempt" "omitempty" = false ∧
  Contains "" "omitempty" = false.
Proof. repeat split; by vm_compute. Qed.

(** ** Induction over type descriptors, through the fields of a struct *)

Lemma rtype_nested_ind (P : reflect.rtype → Prop) :
  (∀ name b, P (reflect.TBasic name b)) →
  (∀ name, P (reflect.TInterface name)) →
  (∀ name, P (reflect.TFunc name)) →
  (∀ name elem, P elem → P (reflect.TChan name elem)) →
  (∀ name len elem, P elem → P (reflect.TArray name len elem)) →
  (∀ name elem, P elem → P (reflect.TSlice name elem)) →
  (∀ name key elem, P key → P elem → P (reflect.TMap name key elem)) →
  (∀ name elem, P elem → P (reflect.TPtr name elem)) →
  (∀ name fields,
     Forall (λ f, P (reflect.Typ f)) fields → P (reflect.TStruct name fields)) →
  ∀ t, P t.
Proof.
  intros Hbasic Hiface Hfunc Hchan Harray Hslice Hmap Hptr Hstruct.
  fix IH 1. intros [name b|name|name|name e|name n e|name e|name k e|name e
                   |name fields].
  - apply Hbasic.
  - apply Hiface.
  - apply Hfunc.
  - apply Hchan, IH.
  - apply Harray, IH.
  - apply Hslice, IH.
  - apply Hmap; apply IH.
  - apply Hptr, IH.
  - apply Hstruct. induction fields as [|f fields IHf]; constructor.
    + apply IH.
    + apply IHf.
Qed.

(** ** The loop over the fields of a struct *)

Lemma spliceProperties_union (em m : gmap string property) (p : property) :
  Properties p = Some m →
  spliceProperties (Some em) p = Ok (setProperties (Some (em ∪ m)) p).
Proof.
  intros Hm. unfold spliceProperties.
  apply (map_fold_weak_ind
           (λ r em, r = Ok (setProperties (Some (em ∪ m)) p))).
  - rewrite (left_id_L ∅ (∪)). destruct p; simpl in *; by subst.
  - intros i x em' r _ ->. simpl. unfold assignProperty. simpl.
    by rewrite insert_union_l.
Qed.

Lemma spliceProperties_nil (p : property) : spliceProperties None p = Ok p.
Proof. reflexivity. Qed.

Section readField_cases.
Variable walk : reflect.rtype → tagOptions → property → result property.

Lemma readField_eq (p : property) (field : reflect.StructField) :
  readField walk p field =
    let '(name, opts) := resolvedName field in
    if String.eqb name "-" then Ok p
    else if reflect.Anonymous field then
      embeddedProperty ← walk (reflect.Typ field) opts emptyProperty;
      p ← spliceProperties (Properties embeddedProperty) p;
      Ok (setRequired (Required p ++ Required embeddedProperty) p)
    else
      child ← walk (reflect.Typ field) opts emptyProperty;
      p ← assignProperty name child p;
      if negb (Contains opts "omitempty")
      then Ok (setRequired (Required p ++ [name]) p)
      else Ok p.
Proof.
  unfold readField, resolvedName.
  by destruct (parseTag (reflect.StructTag_Get (reflect.Tag field) "json")).
Qed.

(** A member whose resolved name is "-" leaves the node as it is. *)
Lemma readField_skipped p field opts :
  resolvedName field = ("-", opts) → readField walk p field = Ok p.
Proof. intros Hn. rewrite readField_eq, Hn. done. Qed.

(** A named member stores its child and extends [Required]. *)
Lemma readField_named p field name opts child m :
  resolvedName field = (name, opts) → name ≠ "-" →
  reflect.Anonymous field = false →
  walk (reflect.Typ field) opts emptyProperty = Ok child →
  Properties p = Some m →
  readField walk p field =
    Ok (setRequired
          (Required p ++ (if Contains opts "omitempty" then [] else [name]))
          (setProperties (Some (<[name := child]> m)) p)).
Proof.
  intros Hn Hname Hanon Hchild Hm. rewrite readField_eq, Hn.
  apply String.eqb_neq in Hname. rewrite Hname, Hanon, Hchild. simpl.
  unfold assignProperty. rewrite Hm. simpl.
  destruct (Contains opts "omitempty"); simpl; [|done].
  by rewrite (right_id_L [] (++)).
Qed.

(** An embedded member merges the properties of its node into the parent's
    and appends its required names. *)
Lemma readField_embedded p field name opts embedded m :
  resolvedName field = (name, opts) → name ≠ "-" →
  reflect.Anonymous field = true →
  walk (reflect.Typ field) opts emptyProperty = Ok embedded →
  Properties p = Some m →
  readField walk p field =
    Ok (setRequired
          (Required p ++ Required embedded)
          (setProperties (Some (default ∅ (Properties embedded) ∪ m)) p)).
Proof.
  intros Hn Hname Hanon Hemb Hm. rewrite readField_eq, Hn.
  apply String.eqb_neq in Hname. rewrite Hname, Hanon, Hemb, bind_Ok.
  destruct (Properties embedded) as [em|].
  - by rewrite (spliceProperties_union em m p Hm).
  - rewrite spliceProperties_nil, bind_Ok. simpl.
    rewrite (left_id_L ∅ (∪)). destruct p; simpl in *; by subst.
Qed.

(** Whatever the member, a round on a node with an allocated [Properties]
    map returns normally when the walk of the member's type does, and the
    map stays allocated. *)
Lemma readField_total p field :
  (∀ opts q, ∃ r, walk (reflect.Typ field) opts q = Ok r) →
  is_Some (Properties p) →
  ∃ p', readField walk p field = Ok p' ∧ is_Some (Properties p').
Proof.
  intros Hwalk [m Hm].
  destruct (resolvedName field) as [name opts] eqn:Hn.
  destruct (Hwalk opts emptyProperty) as [r Hr].
  destruct (decide (name = "-")) as [->|Hname].
  { rewrite (readField_skipped _ _ _ Hn). eauto. }
  destruct (reflect.Anonymous field) eqn:Hanon.
  - rewrite (readField_embedded _ _ _ _ _ _ Hn Hname Hanon Hr Hm).
    eexists; split; [done|]. by eexists.
  - rewrite (readField_named _ _ _ _ _ _ Hn Hname Hanon Hr Hm).
    eexists; split; [done|]. by eexists.
Qed.

End readField_cases.

(** ** The shallow walk returns normally on every type descriptor *)

Lemma readFromStruct_eq name fields p :
  readFromStruct (reflect.TStruct name fields) p =
    foldM (readField read) fields (structNode p).
Proof. reflexivity. Qed.

(** Split on whether the type is in the named-type table. *)
Ltac gtfm_cases :=
  match goal with
  | |- context [getTypeFromMapping ?t] =>
      let Hg := fresh "Hg" in
      destruct (getTypeFromMapping_cases t) as [Hg|Hg]; rewrite Hg;
      [simpl; eauto | simpl]
  end.

Ltac gtfm_split :=
  match goal with
  | |- context [getTypeFromMapping ?t] =>
      let Hg := fresh "Hg" in
      destruct (getTypeFromMapping_cases t) as [Hg|Hg]; rewrite Hg; simpl
  end.

Lemma read_total (t : reflect.rtype) :
  ∀ opts p, ∃ r, read t opts p = Ok r.
Proof.
  induction t as [name b|name|name|name e IH|name n e IH|name e IH
                 |name k e IHk IH|name e IH|name fields IH]
    using rtype_nested_ind; intros opts p; rewrite read_eq; gtfm_cases;
    eauto.
  - destruct b; simpl; eauto.
  - unfold readFromSlice, readFromSlice_body. simpl.
    destruct (getTypeFromMapping e) as [[jsType format] kind].
    case_bool_decide; [eauto|].
    destruct (String.eqb jsType ""); simpl; [eauto|].
    destruct (IH "" emptyProperty) as [items ->]. simpl. eauto.
  - unfold readFromMap. simpl.
    destruct (getTypeFromMapping e) as [[jsType format] kind].
    destruct (String.eqb jsType ""); simpl; eauto.
  - change (∃ r, foldM (readField read) fields
                       (structNode (setTypeFormat "object" "" p)) = Ok r).
    destruct (foldM_invariant (λ q, is_Some (Properties q)) (readField read)
                fields (structNode (setTypeFormat "object" "" p)))
      as (r & Hr & _); [by eexists| |eauto].
    eapply Forall_impl; [exact IH|]. intros f Hf q Hq.
    by apply readField_total.
Qed.

(** ** The loop over the members in closed form *)

Lemma setRequired_setProperties_id (p : property) (m : gmap string property) :
  Properties p = Some m →
  setRequired (Required p ++ []) (setProperties (Some (∅ ∪ m)) p) = p.
Proof.
  intros Hm. rewrite (left_id_L ∅ (∪)), (right_id_L [] (++)).
  destruct p; simpl in *; by subst.
Qed.

(** One round, whatever the member: the entries of [memberProperties] are
    written over the parent's, the names of [memberRequired] appended. *)
Lemma readField_effect walk p field node m :
  walk (reflect.Typ field) (resolvedName field).2 emptyProperty = Ok node →
  Properties p = Some m →
  readField walk p field =
    Ok (setRequired (Required p ++ memberRequired field node)
          (setProperties (Some (memberProperties field node ∪ m)) p)).
Proof.
  intros Hnode Hm. unfold memberRequired, memberProperties.
  destruct (resolvedName field) as [name opts] eqn:Hn. simpl in Hnode.
  destruct (String.eqb_spec name "-") as [->|Hname].
  { rewrite (readField_skipped _ _ _ _ Hn).
    by rewrite setRequired_setProperties_id. }
  destruct (reflect.Anonymous field) eqn:Hanon.
  - by rewrite (readField_embedded _ _ _ _ _ _ _ Hn Hname Hanon Hnode Hm).
  - rewrite (readField_named _ _ _ _ _ _ _ Hn Hname Hanon Hnode Hm).
    by rewrite insert_union_singleton_l.
Qed.

Lemma propertiesAfter_app members1 members2 m :
  propertiesAfter (members1 ++ members2) m =
    propertiesAfter members2 (propertiesAfter members1 m).
Proof. apply foldl_app. Qed.

Lemma requiredAfter_app members1 members2 req :
  requiredAfter (members1 ++ members2) req =
    requiredAfter members2 (requiredAfter members1 req).
Proof.
  unfold requiredAfter. by rewrite map_app, concat_app, (assoc_L (++)).
Qed.

(** A loop whose every round has the effect of a member has the effect of
    the members in order. *)
Lemma members_loop {X} (step : property → X → result property)
    (member : X → reflect.StructField * property) (l : list X) p m :
  Forall (λ x, ∀ q mq, Properties q = Some mq →
            step q x =
              Ok (setRequired
                    (Required q ++ memberRequired (member x).1 (member x).2)
                    (setProperties
                       (Some (memberProperties (member x).1 (member x).2 ∪ mq))
                       q))) l →
  Properties p = Some m →
  foldM step l p =
    Ok (setRequired (requiredAfter (member <$> l) (Required p))
          (setProperties (Some (propertiesAfter (member <$> l) m)) p)).
Proof.
  intros Hl. revert p m.
  induction Hl as [|x l Hx _ IH]; intros p m Hm.
  - simpl. unfold requiredAfter. simpl.
    rewrite (right_id_L [] (++)). destruct p; simpl in *; by subst.
  - simpl. rewrite (Hx p m Hm), bind_Ok.
    erewrite IH by reflexivity.
    unfold requiredAfter. simpl. by rewrite (assoc_L (++)).
Qed.

(** Entries are only ever added or replaced. *)
Lemma propertiesAfter_dom members m k :
  k ∈ dom m → k ∈ dom (propertiesAfter members m).
Proof.
  revert m. induction members as [|fn members IH]; intros m Hk; [done|].
  simpl. apply IH. rewrite dom_union_L. set_solver.
Qed.

(** An entry stays as it is while no later member writes its key. *)
Lemma propertiesAfter_frame members m k :
  Forall (λ fn, k ∉ dom (memberProperties fn.1 fn.2)) members →
  propertiesAfter members m !! k = m !! k.
Proof.
  intros Hl. revert m. induction Hl as [|fn members Hfn _ IH]; intros m.
  - done.
  - simpl. rewrite IH. apply lookup_union_r. by apply not_elem_of_dom.
Qed.

(** ** Shallow mode: the struct walk in closed form *)

Lemma read_memberNode (field : reflect.StructField) :
  read (reflect.Typ field) (resolvedName field).2 emptyProperty =
    Ok (memberNode field).
Proof.
  unfold memberNode.
  by destruct (read_total (reflect.Typ field) (resolvedName field).2
                 emptyProperty) as [r ->].
Qed.

Lemma readFields_closed_form fields p m :
  Properties p = Some m →
  foldM (readField read) fields p =
    Ok (setRequired (requiredAfter (shallowMember <$> fields) (Required p))
          (setProperties
             (Some (propertiesAfter (shallowMember <$> fields) m)) p)).
Proof.
  apply members_loop. apply Forall_forall. intros field _ q mq Hq.
  apply readField_effect; [apply read_memberNode | done].
Qed.

Lemma readFromStruct_closed_form name fields p :
  readFromStruct (reflect.TStruct name fields) p =
    Ok (Property "object" (Format p) (Items p)
          (Some (propertiesAfter (shallowMember <$> fields) ∅))
          (requiredAfter (shallowMember <$> fields) (Required p))
          false).
Proof.
  rewrite readFromStruct_eq.
  by rewrite (readFields_closed_form fields (structNode p) ∅).
Qed.

(** ** Deep mode: induction over values and normal return *)

Lemma Value_nested_ind (P : reflect.Value → Prop) :
  P reflect.VZero →
  (∀ name b data, P (reflect.VBasic name b data)) →
  (∀ name dyn, P dyn → P (reflect.VInterface name dyn)) →
  (∀ name, P (reflect.VFunc name)) →
  (∀ name elem, P (reflect.VChan name elem)) →
  (∀ name elem elems, Forall P elems → P (reflect.VArray name elem elems)) →
  (∀ name elem elems, Forall P elems → P (reflect.VSlice name elem elems)) →
  (∀ name key elem entries,
     Forall (λ kv, P kv.1 ∧ P kv.2) entries →
     P (reflect.VMap name key elem entries)) →
  (∀ name elem pointee, P pointee → P (reflect.VPtr name elem pointee)) →
  (∀ name fields,
     Forall (λ fv, P fv.2) fields → P (reflect.VStruct name fields)) →
  ∀ v, P v.
Proof.
  intros Hzero Hbasic Hiface Hfunc Hchan Harray Hslice Hmap Hptr Hstruct.
  fix IH 1. intros [|name b data|name dyn|name|name e|name e xs|name e xs
                   |name k e entries|name e pointee|name fields].
  - apply Hzero.
  - apply Hbasic.
  - apply Hiface, IH.
  - apply Hfunc.
  - apply Hchan.
  - apply Harray. induction xs as [|x xs IHx]; constructor; [apply IH|apply IHx].
  - apply Hslice. induction xs as [|x xs IHx]; constructor; [apply IH|apply IHx].
  - apply Hmap. induction entries as [|[k' x] entries IHe]; constructor.
    + split; apply IH.
    + apply IHe.
  - apply Hptr, IH.
  - apply Hstruct. induction fields as [|[f x] fields IHf]; constructor.
    + apply IH.
    + apply IHf.
Qed.

(** The key-to-name conversion returns normally on every key. *)
Lemma mapKeyToString_total (key : reflect.Value) :
  ∃ name, mapKeyToString key = Ok name.
Proof.
  induction key as [|name b data|name dyn IH|name|name e|name e xs _
                   |name e xs _|name k e entries _|name e pointee _
                   |name fields _] using Value_nested_ind;
    rewrite mapKeyToString_eq; simpl; eauto.
  destruct b; simpl; eauto.
Qed.

Lemma readFieldDeep_as_readField walk p field value :
  readFieldDeep walk p (field, value) =
    readField (λ _ opts q, walk value opts q) p field.
Proof. reflexivity. Qed.

Lemma readFromStructDeep_eq name fields p :
  readFromStructDeep (reflect.VStruct name fields) p =
    foldM (readFieldDeep readDeep) fields (structNode p).
Proof. reflexivity. Qed.

Lemma readDeep_total (v : reflect.Value) :
  wfValue v = true → ∀ opts p, ∃ r, readDeep v opts p = Ok r.
Proof.
  induction v as [|name b data|name dyn IH|name|name e|name e xs IH
                 |name e xs IH|name k e entries IH|name e pointee IH
                 |name fields IH] using Value_nested_ind;
    intros Hwf opts p; rewrite readDeep_eq; simpl; [eauto|..];
    gtfm_cases; eauto.
  - destruct b; simpl; eauto.
  - unfold readFromSliceDeep, readFromSliceDeep_body. simpl.
    destruct xs as [|x xs]; simpl.
    + destruct (getTypeFromMapping e) as [[jsType format] kind].
      case_bool_decide; [eauto|].
      destruct (String.eqb jsType ""); simpl; [eauto|].
      destruct (read_total e "" emptyProperty) as [items ->]. simpl. eauto.
    + simpl in Hwf. apply andb_prop in Hwf as [Hx _].
      apply andb_prop in Hx as [Hvalid Hwfx].
      apply Forall_cons_1 in IH as [IHx _].
      destruct (IHx Hwfx "" emptyProperty) as [items Hitems].
      destruct (Value_Type_valid x Hvalid) as [t ->]. simpl.
      destruct (getTypeFromMapping t) as [[jsType format] kind].
      case_bool_decide; [eauto|]. rewrite Hitems. simpl. eauto.
  - unfold readFromMapDeep, readFromMapDeep_body. simpl.
    assert (∀ m0, ∃ m', foldM (readEntryDeep readDeep) entries m0 = Ok m')
      as Hloop.
    { simpl in Hwf. clear p. revert Hwf.
      induction IH as [|[key value] entries [_ IHv] _ IHl]; intros Hwf m0;
        simpl; [eauto|].
      simpl in Hwf. apply andb_prop in Hwf as [Hkv Hwf].
      apply andb_prop in Hkv as [_ Hwfv].
      destruct (mapKeyToString_total key) as [keyName ->]. simpl in *.
      destruct (IHv Hwfv "" emptyProperty) as [child ->]. simpl.
      by apply IHl. }
    destruct (Hloop ∅) as [m' ->]. simpl.
    destruct (Nat.ltb 0 (size m')); eauto.
  - change (∃ r, foldM (readFieldDeep readDeep) fields
                       (structNode (setTypeFormat "object" "" p)) = Ok r).
    destruct (foldM_invariant (λ q, is_Some (Properties q))
                (readFieldDeep readDeep) fields
                (structNode (setTypeFormat "object" "" p)))
      as (r & Hr & _); [by eexists| |eauto].
    simpl in Hwf. rewrite forallb_forall in Hwf.
    apply Forall_forall. intros [f x] Hin q Hq.
    rewrite readFieldDeep_as_readField. apply readField_total; [|done].
    rewrite Forall_forall in IH. apply (IH _ Hin).
    apply list_elem_of_In in Hin. apply Hwf in Hin.
    by apply andb_prop in Hin as [_ ?].
Qed.

Lemma readDeep_memberNodeDeep (fv : reflect.StructField * reflect.Value) :
  wfValue fv.2 = true →
  readDeep fv.2 (resolvedName fv.1).2 emptyProperty = Ok (memberNodeDeep fv).
Proof.
  intros Hwf. unfold memberNodeDeep.
  by destruct (readDeep_total fv.2 Hwf (resolvedName fv.1).2 emptyProperty)
    as [r ->].
Qed.

Lemma readFieldsDeep_closed_form fields p m :
  forallb (λ fv, reflect.Value_IsValid fv.2 && wfValue fv.2) fields = true →
  Properties p = Some m →
  foldM (readFieldDeep readDeep) fields p =
    Ok (setRequired (requiredAfter (deepMember <$> fields) (Required p))
          (setProperties
             (Some (propertiesAfter (deepMember <$> fields) m)) p)).
Proof.
  intros Hwf. apply members_loop. apply Forall_forall.
  intros [field value] Hin q mq Hq.
  rewrite readFieldDeep_as_readField. apply readField_effect; [|done].
  apply (readDeep_memberNodeDeep (field, value)). simpl.
  rewrite forallb_forall in Hwf. apply list_elem_of_In, Hwf in Hin.
  by apply andb_prop in Hin as [_ ?].
Qed.

Lemma readFromStructDeep_closed_form name fields p :
  wfValue (reflect.VStruct name fields) = true →
  readFromStructDeep (reflect.VStruct name fields) p =
    Ok (Property "object" (Format p) (Items p)
          (Some (propertiesAfter (deepMember <$> fields) ∅))
          (requiredAfter (deepMember <$> fields) (Required p))
          false).
Proof.
  intros Hwf. rewrite readFromStructDeep_eq.
  by rewrite (readFieldsDeep_closed_form fields (structNode p) ∅ Hwf).
Qed.

(** ** The example of the README

    [Read(&ExampleBasic{})] gives the schema printed there: the properties
    Bar, Baz, List, Qux, Zoo and foo, and the required names foo, Qux, Baz,
    Zoo and List. *)
Lemma README_ExampleBasic :
  read (reflect.PtrTo Sample.tExampleBasic) "" emptyProperty =
    Ok (Property "object" "" None
          (Some {[ "Bar" := Property "string" "" None None [] false;
                   "Baz" := Property "array" ""
                              (Some (Property "string" "" None None [] false))
                              None [] false;
                   "List" := Property "array" ""
                               (Some (Property "object" "" None
                                        (Some {[ "Value" :=
                                                   Property "string" "" None
                                                            None [] false ]})
                                        ["Value"] false))
                               None [] false;
                   "Qux" := Property "integer" "" None None [] false;
                   "Zoo" := Property "string" "" None None [] false;
                   "foo" := Property "boolean" "" None None [] false ]})
          ["foo"; "Qux"; "Baz"; "Zoo"; "List"] false).
Proof. by vm_compute. Qed.

(** * The claims *)

(** ** C7: kinds outside the two tables *)

(** C7, as stated, fails on the raw byte: [uint8] is not in the named-type
    table, its kind is [Uint8], and [kindMapping] lists [Uint8], so the
    type string is "integer", not empty. *)
Lemma C7_raw_byte_counterexample :
  formatMapping !! reflect.Type_String Sample.tUint8 = None ∧
  reflect.Type_Kind Sample.tUint8 = reflect.Uint8 ∧
  getTypeFromMapping Sample.tUint8 = ("integer", "", reflect.Uint8) ∧
  getTypeFromMapping Sample.tUint8 ≠ ("", "", reflect.Uint8).
Proof. repeat split; [by vm_compute..|]. by vm_compute. Qed.

(** C7 (amended): for every type descriptor of kind Ptr, Interface or
    Uint8 that is not in the named-type table, [getTypeFromMapping] returns
    an empty format and the kind itself as the kind tag; the type string is
    empty when the kind is Ptr or Interface, and "integer" when it is
    Uint8. *)
Theorem C7_unmapped_kinds (t : reflect.rtype) :
  formatMapping !! reflect.Type_String t = None →
  reflect.Type_Kind t = reflect.Ptr ∨ reflect.Type_Kind t = reflect.Interface
    ∨ reflect.Type_Kind t = reflect.Uint8 →
  getTypeFromMapping t =
    (if bool_decide (reflect.Type_Kind t = reflect.Uint8)
     then "integer" else "",
     "", reflect.Type_Kind t).
Proof.
  intros Hn Hk. rewrite getTypeFromMapping_unlisted by done.
  by destruct Hk as [-> | [-> | ->]].
Qed.

Lemma C7_unmapped_kinds_witness :
  formatMapping !! reflect.Type_String (reflect.PtrTo Sample.tString) = None ∧
  (reflect.Type_Kind (reflect.PtrTo Sample.tString) = reflect.Ptr
   ∨ reflect.Type_Kind (reflect.PtrTo Sample.tString) = reflect.Interface
   ∨ reflect.Type_Kind (reflect.PtrTo Sample.tString) = reflect.Uint8) ∧
  getTypeFromMapping (reflect.PtrTo Sample.tString) = ("", "", reflect.Ptr).
Proof.
  split; [reflexivity|]. split; [by left|].
  apply (C7_unmapped_kinds (reflect.PtrTo Sample.tString));
    [reflexivity | by left].
Defined.

(** ** C1: the empty map in the two modes *)

(** C1: for a map type that is not in the named-type table and whose value
    type classifies as "integer" (as does [map[string]int]), the shallow
    walk of a fresh node sets [Properties] to the single entry ".*" with a
    node of type "integer"; the deep walk of a map value of that type
    without entries leaves [Properties] nil, and sets nothing but the type
    "object". *)
Theorem C1_empty_map (name : string) (key elem : reflect.rtype)
    (kind : reflect.Kind) (opts : tagOptions) :
  formatMapping !! name = None →
  getTypeFromMapping elem = ("integer", "", kind) →
  read (reflect.TMap name key elem) opts emptyProperty =
    Ok (Property "object" "" None
          (Some {[ ".*" := Property "integer" "" None None [] false ]})
          [] false) ∧
  readDeep (reflect.VMap name key elem []) opts emptyProperty =
    Ok (Property "object" "" None None [] false).
Proof.
  intros Hn He. split.
  - rewrite read_eq, getTypeFromMapping_unlisted by done. simpl.
    unfold readFromMap. simpl. by rewrite He.
  - rewrite readDeep_eq. simpl.
    by rewrite getTypeFromMapping_unlisted by done.
Qed.

Lemma C1_empty_map_witness :
  formatMapping !! "map[string]int" = None ∧
  getTypeFromMapping Sample.tInt = ("integer", "", reflect.Int) ∧
  read Sample.tMapStringInt "" emptyProperty =
    Ok (Property "object" "" None
          (Some {[ ".*" := Property "integer" "" None None [] false ]})
          [] false) ∧
  readDeep (reflect.VMap "map[string]int" Sample.tString Sample.tInt []) ""
           emptyProperty =
    Ok (Property "object" "" None None [] false).
Proof.
  split; [reflexivity|]. split; [reflexivity|].
  apply (C1_empty_map "map[string]int" Sample.tString Sample.tInt
           reflect.Int ""); reflexivity.
Defined.

(** ** C8: a sequence of raw bytes *)

(** C8: for a slice type whose element type has kind Uint8 (neither type
    being in the named-type table, as for [[]byte]), the shallow walk sets
    the node's type to "string" and changes nothing else, so [Items] stays
    as it was, nil on a fresh node; the deep walk of a slice value of that
    type does the same, without elements as with elements. *)
Theorem C8_byte_slice (name ename : string) (elems : list reflect.Value)
    (opts : tagOptions) (p : property) :
  formatMapping !! name = None →
  formatMapping !! ename = None →
  Forall (λ x, ∃ data, x = reflect.VBasic ename reflect.BUint8 data) elems →
  read (reflect.TSlice name (reflect.TBasic ename reflect.BUint8)) opts p =
    Ok (setType "string" p) ∧
  readDeep (reflect.VSlice name (reflect.TBasic ename reflect.BUint8) elems)
           opts p =
    Ok (setType "string" p).
Proof.
  intros Hn He Helems.
  assert (getTypeFromMapping (reflect.TBasic ename reflect.BUint8) =
            ("integer", "", reflect.Uint8)) as Hbyte
    by by rewrite getTypeFromMapping_unlisted.
  split.
  - rewrite read_eq, getTypeFromMapping_unlisted by done. simpl.
    unfold readFromSlice, readFromSlice_body. simpl. by rewrite Hbyte.
  - rewrite readDeep_eq. simpl.
    rewrite getTypeFromMapping_unlisted by done. simpl.
    unfold readFromSliceDeep, readFromSliceDeep_body. simpl.
    destruct Helems as [|x elems [data ->] _]; simpl; by rewrite Hbyte.
Qed.

Lemma C8_byte_slice_witness :
  formatMapping !! "[]uint8" = None ∧
  formatMapping !! "uint8" = None ∧
  Forall (λ x, ∃ data, x = reflect.VBasic "uint8" reflect.BUint8 data)
         [Sample.vByte "a"; Sample.vByte "b"] ∧
  read Sample.tBytes "" emptyProperty =
    Ok (Property "string" "" None None [] false) ∧
  readDeep (reflect.VSlice "[]uint8" Sample.tUint8
              [Sample.vByte "a"; Sample.vByte "b"]) "" emptyProperty =
    Ok (Property "string" "" None None [] false).
Proof.
  assert (Forall (λ x, ∃ data, x = reflect.VBasic "uint8" reflect.BUint8 data)
                 [Sample.vByte "a"; Sample.vByte "b"]) as Helems
    by (repeat constructor; by eexists).
  split; [reflexivity|]. split; [reflexivity|]. split; [exact Helems|].
  exact (C8_byte_slice "[]uint8" "uint8" _ "" emptyProperty
           eq_refl eq_refl Helems).
Defined.

(** ** The effect of a named and of an embedded member *)

Lemma member_named field name opts node :
  resolvedName field = (name, opts) → name ≠ "-" →
  reflect.Anonymous field = false →
  memberProperties field node = {[ name := node ]} ∧
  memberRequired field node =
    (if Contains opts "omitempty" then [] else [name]).
Proof.
  intros Hn Hname Hanon. unfold memberProperties, memberRequired.
  apply String.eqb_neq in Hname. by rewrite Hn, Hname, Hanon.
Qed.

Lemma member_embedded field name opts node :
  resolvedName field = (name, opts) → name ≠ "-" →
  reflect.Anonymous field = true →
  memberProperties field node = default ∅ (Properties node) ∧
  memberRequired field node = Required node.
Proof.
  intros Hn Hname Hanon. unfold memberProperties, memberRequired.
  apply String.eqb_neq in Hname. by rewrite Hn, Hname, Hanon.
Qed.

Lemma propertiesAfter_split pre fn post m :
  propertiesAfter (pre ++ fn :: post) m =
    propertiesAfter post
      (memberProperties fn.1 fn.2 ∪ propertiesAfter pre m).
Proof. by rewrite propertiesAfter_app. Qed.

Lemma requiredAfter_split pre fn post req :
  requiredAfter (pre ++ fn :: post) req =
    (requiredAfter pre req ++ memberRequired fn.1 fn.2
       ++ concat (map (λ gn, memberRequired gn.1 gn.2) post))%list.
Proof.
  unfold requiredAfter. rewrite map_app, concat_app. simpl.
  by rewrite <-!(assoc_L (++)).
Qed.

(** ** C2: the named members of a record *)

(** C2, as stated, fails on an embedded member: the member [EmbeddedType]
    of [struct { EmbeddedType }] is not excluded (its resolved name is not
    "-") and its tag options do not contain "omitempty", yet the result has
    no entry under "EmbeddedType" and does not list it in [Required]; the
    entries and required names of the embedded struct stand there
    instead. *)
Lemma C2_embedded_member_counterexample :
  resolvedName Sample.fieldEmbedded = ("EmbeddedType", "") ∧
  Contains "" "omitempty" = false ∧
  read Sample.tOuter "" emptyProperty =
    Ok (Property "object" "" None
          (Some {[ "Zoo" := Property "string" "" None None [] false ]})
          ["Zoo"] false) ∧
  ({[ "Zoo" := Property "string" "" None None [] false ]}
     : gmap string property) !! "EmbeddedType" = None ∧
  "EmbeddedType" ∉ ["Zoo"].
Proof.
  split; [by vm_compute|]. split; [by vm_compute|].
  split; [by vm_compute|]. split; [by vm_compute|].
  by intros [?|[]%elem_of_nil]%elem_of_cons.
Qed.

(** C2 (amended): for every record type, the record walk of shallow mode
    [readFromStruct] returns normally, and for each member that is neither
    excluded (resolved name "-") nor embedded: the node inferred for the
    member's type is stored under the member's resolved name -- the name is
    a key of the result, and its entry is that node unless a later member
    writes the same key -- and the name stands in [Required], between the
    names of the members before it and those of the members after it,
    exactly when the member's tag options do not contain "omitempty".
    In particular the record [{A bool; B string `json:",omitempty"`}] gives
    the properties [{A: boolean, B: string}] and the required names [A]. *)
Theorem C2_named_members :
  (∀ (name : string) (pre post : list reflect.StructField)
     (f : reflect.StructField) (n : string) (opts : tagOptions)
     (p : property),
     resolvedName f = (n, opts) → n ≠ "-" → reflect.Anonymous f = false →
     ∃ child r m,
       read (reflect.Typ f) opts emptyProperty = Ok child ∧
       readFromStruct (reflect.TStruct name (pre ++ f :: post)) p = Ok r ∧
       Properties r = Some m ∧
       is_Some (m !! n) ∧
       (Forall (λ g, n ∉ dom (memberProperties g (memberNode g))) post →
        m !! n = Some child) ∧
       Required r =
         (requiredAfter (shallowMember <$> pre) (Required p)
          ++ (if Contains opts "omitempty" then [] else [n])
          ++ concat (map (λ g, memberRequired g (memberNode g)) post))%list) ∧
  read Sample.tAB "" emptyProperty =
    Ok (Property "object" "" None
          (Some {[ "A" := Property "boolean" "" None None [] false;
                   "B" := Property "string" "" None None [] false ]})
          ["A"] false).
Proof.
  split; [|by vm_compute].
  intros name pre post f n opts p Hn Hname Hanon.
  pose proof (read_memberNode f) as Hchild. rewrite Hn in Hchild.
  destruct (member_named f n opts (memberNode f) Hn Hname Hanon)
    as [Hprops Hreq].
  exists (memberNode f). eexists. eexists.
  split; [exact Hchild|].
  split; [apply readFromStruct_closed_form|].
  split; [reflexivity|]. simpl.
  rewrite fmap_app, fmap_cons, propertiesAfter_split, requiredAfter_split.
  simpl. rewrite Hprops, Hreq.
  assert (({[n := memberNode f]}
             ∪ propertiesAfter (shallowMember <$> pre) ∅) !! n
          = Some (memberNode f)) as Hstored.
  { apply lookup_union_Some_l, lookup_singleton_eq. }
  split; [|split].
  - apply elem_of_dom, propertiesAfter_dom, elem_of_dom. by eexists.
  - intros Hpost. rewrite propertiesAfter_frame; [done|].
    apply Forall_fmap. exact Hpost.
  - by rewrite <-list_fmap_compose.
Qed.

Lemma C2_named_members_witness :
  resolvedName Sample.fieldB = ("B", "omitempty") ∧
  "B" ≠ "-" ∧
  reflect.Anonymous Sample.fieldB = false ∧
  ∃ child r m,
    read (reflect.Typ Sample.fieldB) "omitempty" emptyProperty = Ok child ∧
    readFromStruct
      (reflect.TStruct "main.AB" ([Sample.fieldA] ++ Sample.fieldB :: []))
      emptyProperty = Ok r ∧
    Properties r = Some m ∧
    is_Some (m !! "B") ∧
    (Forall (λ g, "B" ∉ dom (memberProperties g (memberNode g))) [] →
     m !! "B" = Some child) ∧
    Required r =
      (requiredAfter (shallowMember <$> [Sample.fieldA])
                     (Required emptyProperty)
       ++ (if Contains "omitempty" "omitempty" then [] else ["B"])
       ++ concat (map (λ g, memberRequired g (memberNode g)) []))%list.
Proof.
  split; [reflexivity|]. split; [discriminate|]. split; [reflexivity|].
  apply (proj1 C2_named_members "main.AB" [Sample.fieldA] [] Sample.fieldB
           "B" "omitempty" emptyProperty); [reflexivity|discriminate|reflexivity].
Defined.

(** ** C3: the embedded members of a record *)

(** C3, as stated, fails on an embedded member tagged [json:"-"]: the
    struct [struct { EmbeddedType `json:"-"` }] contains an embedded member
    whose node has the property "Zoo" and the required name "Zoo", and the
    parent gets neither, in shallow and in deep mode: the member is skipped
    before the walk looks at [Anonymous]. *)
Lemma C3_skipped_embedded_counterexample :
  reflect.Anonymous Sample.fieldEmbeddedSkipped = true ∧
  read Sample.tEmbeddedType "" emptyProperty =
    Ok (Property "object" "" None
          (Some {[ "Zoo" := Property "string" "" None None [] false ]})
          ["Zoo"] false) ∧
  read Sample.tOuterSkipped "" emptyProperty =
    Ok (Property "object" "" None (Some ∅) [] false) ∧
  readDeep Sample.vOuterSkipped "" emptyProperty =
    Ok (Property "object" "" None (Some ∅) [] false).
Proof. repeat split; by vm_compute. Qed.

(** C3 (amended): for every record type and every embedded member of it
    whose resolved name is not "-", the record walk returns normally and
    splices the member's node into the parent: the parent's properties are
    the entries written by the later members over the entries of the
    embedded node over those written by the earlier members, so that every
    key of the embedded node's properties is a key of the parent's, with
    the embedded node's entry unless a later member writes that key, and
    no entry is made for the member itself; the embedded node's required
    names stand in the parent's [Required] between the names of the
    members before and after it.  In deep mode the same holds of the
    record walk of a struct value, the member's node being the one
    inferred from the member's value. *)
Theorem C3_embedded_members (name : string)
    (pre post : list reflect.StructField)
    (vpre vpost : list (reflect.StructField * reflect.Value))
    (f : reflect.StructField) (v : reflect.Value)
    (n : string) (opts : tagOptions) (p : property) :
  resolvedName f = (n, opts) → n ≠ "-" → reflect.Anonymous f = true →
  wfValue (reflect.VStruct name (vpre ++ (f, v) :: vpost)) = true →
  (∃ embedded r m,
     read (reflect.Typ f) opts emptyProperty = Ok embedded ∧
     readFromStruct (reflect.TStruct name (pre ++ f :: post)) p = Ok r ∧
     Properties r = Some m ∧
     m = propertiesAfter (shallowMember <$> post)
           (default ∅ (Properties embedded)
              ∪ propertiesAfter (shallowMember <$> pre) ∅) ∧
     (∀ k, k ∈ dom (default ∅ (Properties embedded)) → k ∈ dom m) ∧
     (∀ k, Forall (λ g, k ∉ dom (memberProperties g (memberNode g))) post →
           k ∈ dom (default ∅ (Properties embedded)) →
           m !! k = default ∅ (Properties embedded) !! k) ∧
     Required r =
       (requiredAfter (shallowMember <$> pre) (Required p)
        ++ Required embedded
        ++ concat (map (λ g, memberRequired g (memberNode g)) post))%list) ∧
  (∃ embedded r m,
     readDeep v opts emptyProperty = Ok embedded ∧
     readFromStructDeep (reflect.VStruct name (vpre ++ (f, v) :: vpost)) p
       = Ok r ∧
     Properties r = Some m ∧
     m = propertiesAfter (deepMember <$> vpost)
           (default ∅ (Properties embedded)
              ∪ propertiesAfter (deepMember <$> vpre) ∅) ∧
     (∀ k, k ∈ dom (default ∅ (Properties embedded)) → k ∈ dom m) ∧
     (∀ k, Forall (λ g, k ∉ dom (memberProperties g.1 (memberNodeDeep g)))
                  vpost →
           k ∈ dom (default ∅ (Properties embedded)) →
           m !! k = default ∅ (Properties embedded) !! k) ∧
     Required r =
       (requiredAfter (deepMember <$> vpre) (Required p)
        ++ Required embedded
        ++ concat (map (λ g, memberRequired g.1 (memberNodeDeep g)) vpost))%list).
Proof.
  intros Hn Hname Hanon Hwf. split.
  - pose proof (read_memberNode f) as Hnode. rewrite Hn in Hnode.
    destruct (member_embedded f n opts (memberNode f) Hn Hname Hanon)
      as [Hprops Hreq].
    exists (memberNode f). eexists. eexists.
    split; [exact Hnode|].
    split; [apply readFromStruct_closed_form|].
    split; [reflexivity|]. simpl.
    rewrite fmap_app, fmap_cons, propertiesAfter_split, requiredAfter_split.
    simpl. rewrite Hprops, Hreq.
    split; [reflexivity|]. split; [|split].
    + intros k Hk. apply propertiesAfter_dom. rewrite dom_union_L.
      set_solver.
    + intros k Hpost Hk. rewrite propertiesAfter_frame.
      * apply elem_of_dom in Hk as [x Hx]. rewrite Hx.
        by apply lookup_union_Some_l.
      * apply Forall_fmap. exact Hpost.
    + by rewrite <-list_fmap_compose.
  - assert (wfValue v = true) as Hwfv.
    { simpl in Hwf. rewrite forallb_app in Hwf. simpl in Hwf.
      apply andb_prop in Hwf as [_ Hwf]. apply andb_prop in Hwf as [Hwf _].
      by apply andb_prop in Hwf as [_ ?]. }
    pose proof (readDeep_memberNodeDeep (f, v) Hwfv) as Hnode.
    simpl in Hnode. rewrite Hn in Hnode. simpl in Hnode.
    destruct (member_embedded f n opts (memberNodeDeep (f, v)) Hn Hname Hanon)
      as [Hprops Hreq].
    exists (memberNodeDeep (f, v)). eexists. eexists.
    split; [exact Hnode|].
    split; [by apply readFromStructDeep_closed_form|].
    split; [reflexivity|]. simpl.
    rewrite fmap_app, fmap_cons, propertiesAfter_split, requiredAfter_split.
    simpl. rewrite Hprops, Hreq.
    split; [reflexivity|]. split; [|split].
    + intros k Hk. apply propertiesAfter_dom. rewrite dom_union_L.
      set_solver.
    + intros k Hpost Hk. rewrite propertiesAfter_frame.
      * apply elem_of_dom in Hk as [x Hx]. rewrite Hx.
        by apply lookup_union_Some_l.
      * apply Forall_fmap. exact Hpost.
    + by rewrite <-list_fmap_compose.
Qed.

Lemma C3_embedded_members_witness :
  resolvedName Sample.fieldEmbedded = ("EmbeddedType", "") ∧
  "EmbeddedType" ≠ "-" ∧
  reflect.Anonymous Sample.fieldEmbedded = true ∧
  wfValue Sample.vOuter = true ∧
  (∃ embedded r m,
     read Sample.tEmbeddedType "" emptyProperty = Ok embedded ∧
     readFromStruct Sample.tOuter emptyProperty = Ok r ∧
     Properties r = Some m ∧
     m = default ∅ (Properties embedded) ∪ ∅ ∧
     (∀ k, k ∈ dom (default ∅ (Properties embedded)) → k ∈ dom m) ∧
     (∀ k, Forall (λ g, k ∉ dom (memberProperties g (memberNode g))) [] →
           k ∈ dom (default ∅ (Properties embedded)) →
           m !! k = default ∅ (Properties embedded) !! k) ∧
     Required r = ([] ++ Required embedded ++ [])%list) ∧
  (∃ embedded r m,
     readDeep Sample.vEmbeddedType "" emptyProperty = Ok embedded ∧
     readFromStructDeep Sample.vOuter emptyProperty = Ok r ∧
     Properties r = Some m ∧
     m = default ∅ (Properties embedded) ∪ ∅ ∧
     (∀ k, k ∈ dom (default ∅ (Properties embedded)) → k ∈ dom m) ∧
     (∀ k, Forall (λ g, k ∉ dom (memberProperties g.1 (memberNodeDeep g))) [] →
           k ∈ dom (default ∅ (Properties embedded)) →
           m !! k = default ∅ (Properties embedded) !! k) ∧
     Required r = ([] ++ Required embedded ++ [])%list).
Proof.
  split; [reflexivity|]. split; [discriminate|]. split; [reflexivity|].
  split; [reflexivity|].
  apply (C3_embedded_members "main.Outer" [] [] [] [] Sample.fieldEmbedded
           Sample.vEmbeddedType "EmbeddedType" "" emptyProperty);
    [reflexivity|discriminate|reflexivity|reflexivity].
Defined.

(** ** C10: map keys that are not strings *)

Lemma mapKeyToString_unwrapKey (key : reflect.Value) :
  mapKeyToString key = Ok (reflect.Value_String (unwrapKey key)).
Proof.
  induction key as [|name b data|name dyn IH|name|name e|name e xs _
                   |name e xs _|name k e entries _|name e pointee _
                   |name fields _] using Value_nested_ind;
    rewrite mapKeyToString_eq; simpl; try done.
  by destruct b.
Qed.

(** The name of a key that is not of kind String is a placeholder that
    spells its type. *)
Lemma Value_String_placeholder (v : reflect.Value) (t : reflect.rtype) :
  reflect.Value_Type v = Ok t → reflect.Type_Kind t ≠ reflect.String →
  reflect.Value_String v = "<" +:+ reflect.Type_String t +:+ " Value>".
Proof.
  destruct v as [|name b data| | | | | | | |]; simpl; intros [= <-] Hk;
    try done.
  by destruct b.
Qed.

(** Entries whose keys all get the name [keyName] leave one entry. *)
Lemma readEntries_one_name (keyName : string)
    (entries : list (reflect.Value * reflect.Value)) :
  entries ≠ [] →
  Forall (λ kv, mapKeyToString kv.1 = Ok keyName ∧ wfValue kv.2 = true)
         entries →
  ∀ m0, ∃ child,
    foldM (readEntryDeep readDeep) entries m0 = Ok (<[keyName := child]> m0).
Proof.
  intros Hne Hall. induction Hall as [|[key value] entries [Hk Hv] Hall IH];
    [done|]. intros m0. simpl in *. rewrite Hk. simpl.
  destruct (readDeep_total value Hv "" emptyProperty) as [child ->]. simpl.
  destruct entries as [|entry entries]; [by eexists|].
  destruct (IH ltac:(done) (<[keyName := child]> m0)) as [child' ->].
  exists child'. by rewrite insert_insert_eq.
Qed.

(** C10, as stated, fails.  The placeholder spells the type of the key,
    not its kind: [int(1)] and [MyInt(1)] are both of kind Int and get the
    names "<int Value>" and "<main.MyInt Value>".  And a map with keys of
    interface type can hold both: in
    [map[interface{}]string{int(1): "a", MyInt(1): "b"}] no key is a string
    or wraps one, and the properties map has two entries. *)
Lemma C10_interface_keys_counterexample :
  reflect.Value_Kind (Sample.vInt "1") = reflect.Int ∧
  reflect.Value_Kind (Sample.vMyInt "1") = reflect.Int ∧
  mapKeyToString (Sample.vInt "1") = Ok "<int Value>" ∧
  mapKeyToString (Sample.vMyInt "1") = Ok "<main.MyInt Value>" ∧
  mapKeyToString Sample.keyInt = Ok "<int Value>" ∧
  mapKeyToString Sample.keyMyInt = Ok "<main.MyInt Value>" ∧
  readDeep Sample.vMapAnyString "" emptyProperty =
    Ok (Property "object" "" None
          (Some {[ "<int Value>" := Property "string" "" None None [] false;
                   "<main.MyInt Value>" :=
                     Property "string" "" None None [] false ]})
          [] false) ∧
  size ({[ "<int Value>" := Property "string" "" None None [] false;
           "<main.MyInt Value>" := Property "string" "" None None [] false ]}
          : gmap string property) = 2.
Proof. repeat split; by vm_compute. Qed.

(** C10 (amended): in deep mode the key-to-name conversion gives a key
    that, with the interfaces around it removed, has a type of a kind other
    than String the placeholder "<T Value>", where T is the text of that
    type: the name depends on the key's type, not on its value.  So for
    every map value with at least one entry whose keys all have one such
    type -- as they do when the key type of the map is not an interface
    type -- all entries collapse to that single name, and the walk sets
    [Properties] to a map with exactly one entry. *)
Theorem C10_non_string_keys (name : string) (key elem keyType : reflect.rtype)
    (entries : list (reflect.Value * reflect.Value))
    (opts : tagOptions) (p : property) :
  formatMapping !! name = None →
  entries ≠ [] →
  reflect.Type_Kind keyType ≠ reflect.String →
  Forall (λ kv, reflect.Value_Type (unwrapKey kv.1) = Ok keyType
                ∧ wfValue kv.2 = true) entries →
  Forall (λ kv, mapKeyToString kv.1
                = Ok ("<" +:+ reflect.Type_String keyType +:+ " Value>"))
         entries ∧
  ∃ child,
    readDeep (reflect.VMap name key elem entries) opts p =
      Ok (setProperties
            (Some {[ "<" +:+ reflect.Type_String keyType +:+ " Value>"
                     := child ]})
            (setType "object" p)) ∧
    size ({[ "<" +:+ reflect.Type_String keyType +:+ " Value>" := child ]}
            : gmap string property) = 1.
Proof.
  intros Hn Hne Hkind Hall.
  assert (Forall (λ kv, mapKeyToString kv.1
                        = Ok ("<" +:+ reflect.Type_String keyType
                              +:+ " Value>")) entries) as Hnames.
  { eapply Forall_impl; [exact Hall|]. intros [k x] [Ht _]. simpl in *.
    rewrite mapKeyToString_unwrapKey.
    by rewrite (Value_String_placeholder _ _ Ht Hkind). }
  split; [exact Hnames|].
  destruct (readEntries_one_name
              ("<" +:+ reflect.Type_String keyType +:+ " Value>") entries Hne)
    with (m0 := (∅ : gmap string property)) as [child Hloop].
  { apply Forall_forall. intros kv Hin. rewrite Forall_forall in Hall, Hnames.
    split; [by apply Hnames | by apply Hall]. }
  exists child. split; [|apply map_size_singleton].
  rewrite readDeep_eq. simpl.
  rewrite getTypeFromMapping_unlisted by done. simpl.
  unfold readFromMapDeep, readFromMapDeep_body. simpl.
  rewrite Hloop. simpl.
  change (<[_ := child]> ∅) with
    ({[ "<" +:+ reflect.Type_String keyType +:+ " Value>" := child ]}
       : gmap string property).
  by rewrite map_size_singleton.
Qed.

Lemma C10_non_string_keys_witness :
  formatMapping !! "map[int]string" = None ∧
  [(Sample.vInt "1", Sample.vString "a");
   (Sample.vInt "2", Sample.vString "b")] ≠ [] ∧
  reflect.Type_Kind Sample.tInt ≠ reflect.String ∧
  Forall (λ kv, reflect.Value_Type (unwrapKey kv.1) = Ok Sample.tInt
                ∧ wfValue kv.2 = true)
         [(Sample.vInt "1", Sample.vString "a");
          (Sample.vInt "2", Sample.vString "b")] ∧
  Forall (λ kv, mapKeyToString kv.1 = Ok "<int Value>")
         [(Sample.vInt "1", Sample.vString "a");
          (Sample.vInt "2", Sample.vString "b")] ∧
  ∃ child,
    readDeep Sample.vMapIntString "" emptyProperty =
      Ok (setProperties (Some {[ "<int Value>" := child ]})
            (setType "object" emptyProperty)) ∧
    size ({[ "<int Value>" := child ]} : gmap string property) = 1.
Proof.
  assert (Forall (λ kv, reflect.Value_Type (unwrapKey kv.1) = Ok Sample.tInt
                        ∧ wfValue kv.2 = true)
                 [(Sample.vInt "1", Sample.vString "a");
                  (Sample.vInt "2", Sample.vString "b")]) as Hall
    by (repeat constructor).
  split; [reflexivity|]. split; [discriminate|]. split; [discriminate|].
  split; [exact Hall|].
  apply (C10_non_string_keys "map[int]string" Sample.tInt Sample.tString
           Sample.tInt _ "" emptyProperty);
    [reflexivity|discriminate|discriminate|exact Hall].
Defined.

(** ** C6: the walk on a nil input *)

(** Apart from the nil input, [Read] returns normally, and so does
    [ReadDeep] on every value that [reflect] can hand out. *)
Lemma Read_total (v : reflect.Value) (d : Document) :
  reflect.Value_IsValid v = true → ∃ d', Read (Some v) d = Ok d'.
Proof.
  intros Hv. unfold Read. simpl.
  destruct (Value_Type_valid v Hv) as [t ->]. simpl.
  destruct (read_total t "" (root (setDefaultSchema d))) as [r ->].
  simpl. eauto.
Qed.

Lemma ReadDeep_total (variable : option reflect.Value) (d : Document) :
  wfValue (reflect.ValueOf variable) = true →
  ∃ d', ReadDeep variable d = Ok d'.
Proof.
  intros Hwf. unfold ReadDeep.
  destruct (readDeep_total _ Hwf "" (root (setDefaultSchema d))) as [r ->].
  simpl. eauto.
Qed.

(** C6 (the code at the failing input): on a nil [interface{}] the shallow
    entry point [Read] panics, in [value.Type()] on the zero Value, while
    the deep entry point [ReadDeep] returns normally with the type
    "null". *)
Theorem C6_Read_nil_panics (d : Document) :
  Read None d = Panic "reflect: call of reflect.Value.Type on zero Value" ∧
  ReadDeep None d =
    Ok (mkDocument (Schema (setDefaultSchema d)) (setType "null" (root d))).
Proof.
  split; [reflexivity|].
  unfold ReadDeep, setDefaultSchema.
  by destruct (String.eqb (Schema d) "").
Qed.

(** ** A walk on a node that is not fresh *)

Lemma layered_setTypeFormat jsType format p :
  layered p (setTypeFormat jsType format emptyProperty)
            (setTypeFormat jsType format p).
Proof.
  unfold layered, setTypeFormat.
  destruct (String.eqb_spec jsType "") as [->|Hj],
           (String.eqb_spec format "") as [->|Hf]; simpl;
    rewrite ?(right_id_L [] (++));
    repeat match goal with
           | H : ?s ≠ "" |- context [String.eqb ?s ""] =>
               rewrite (proj2 (String.eqb_neq s "") H)
           end;
    repeat split; auto; discriminate.
Qed.

Section layered_steps.
Variables old fresh r : property.
Hypothesis Hl : layered old fresh r.

Lemma layered_setType s :
  s ≠ "" → layered old (setType s fresh) (setType s r).
Proof.
  intros Hs. apply String.eqb_neq in Hs.
  destruct Hl as (_ & ? & ? & ? & ? & ? & ?).
  unfold layered; simpl. rewrite Hs. repeat split; auto.
Qed.

Lemma layered_setItems items :
  layered old (setItems (Some items) fresh) (setItems (Some items) r).
Proof.
  destruct Hl as (? & ? & _ & ? & ? & ? & ?).
  unfold layered; simpl. repeat split; auto.
Qed.

Lemma layered_setProperties m :
  layered old (setProperties (Some m) fresh) (setProperties (Some m) r).
Proof.
  destruct Hl as (? & ? & ? & _ & ? & ? & ?).
  unfold layered; simpl. repeat split; auto.
Qed.

Lemma layered_setAdditionalProperties :
  layered old (setAdditionalProperties true fresh)
              (setAdditionalProperties true r).
Proof.
  destruct Hl as (? & ? & ? & ? & ? & _ & _).
  unfold layered; simpl. repeat split; auto.
Qed.

Lemma layered_struct m members :
  layered old
    (Property "object" (Format fresh) (Items fresh) (Some m)
              (requiredAfter members (Required fresh)) false)
    (Property "object" (Format r) (Items r) (Some m)
              (requiredAfter members (Required r)) false).
Proof.
  destruct Hl as (_ & ? & ? & _ & Hreq & _ & _).
  unfold layered, requiredAfter; simpl. rewrite Hreq.
  repeat split; auto; try discriminate. by rewrite (assoc_L (++)).
Qed.

End layered_steps.

(** The shallow walk on a used node, against the walk on a fresh one. *)
Lemma read_layered (t : reflect.rtype) :
  ∀ opts p, ∃ r fresh,
    read t opts p = Ok r ∧ read t opts emptyProperty = Ok fresh ∧
    layered p fresh r.
Proof.
  induction t as [name b|name|name|name e ?|name n e ?|name e ?
                 |name k ? e ?|name e IH|name fields];
    intros opts p; rewrite !read_eq;
    (gtfm_split;
     [do 2 eexists; split; [done|split; [done|]];
      apply layered_setTypeFormat | ]).
  - do 2 eexists. split; [|split]; [by destruct b..|].
    apply layered_setTypeFormat.
  - do 2 eexists. split; [done|split; [done|]]. apply layered_setTypeFormat.
  - do 2 eexists. split; [done|split; [done|]]. apply layered_setTypeFormat.
  - do 2 eexists. split; [done|split; [done|]]. apply layered_setTypeFormat.
  - do 2 eexists. split; [done|split; [done|]]. apply layered_setTypeFormat.
  - unfold readFromSlice, readFromSlice_body. simpl.
    destruct (getTypeFromMapping e) as [[jsType format] kind].
    case_bool_decide.
    { do 2 eexists. split; [done|split; [done|]].
      apply layered_setType; [apply layered_setTypeFormat|done]. }
    destruct (String.eqb jsType ""); simpl.
    { do 2 eexists. split; [done|split; [done|]].
      apply layered_setTypeFormat. }
    destruct (read_total e "" emptyProperty) as [items ->]. simpl.
    do 2 eexists. split; [done|split; [done|]].
    apply layered_setItems, layered_setTypeFormat.
  - unfold readFromMap. simpl.
    destruct (getTypeFromMapping e) as [[jsType format] kind].
    destruct (String.eqb jsType ""); simpl;
      do 2 eexists; (split; [done|split; [done|]]).
    + apply layered_setAdditionalProperties, layered_setTypeFormat.
    + apply layered_setProperties, layered_setTypeFormat.
  - apply IH.
  - rewrite !readFromStruct_closed_form.
    do 2 eexists. split; [done|split; [done|]].
    apply layered_struct, layered_setTypeFormat.
Qed.

Lemma readEntries_total entries :
  forallb (λ kv, reflect.Value_IsValid kv.1 && wfValue kv.1
                 && reflect.Value_IsValid kv.2 && wfValue kv.2) entries
    = true →
  ∀ m0, ∃ m', foldM (readEntryDeep readDeep) entries m0 = Ok m'.
Proof.
  induction entries as [|[key value] entries IH]; intros Hwf m0; simpl;
    [eauto|].
  simpl in Hwf. apply andb_prop in Hwf as [Hkv Hwf].
  apply andb_prop in Hkv as [_ Hwfv].
  rewrite mapKeyToString_unwrapKey. simpl.
  destruct (readDeep_total value Hwfv "" emptyProperty) as [child ->]. simpl.
  by apply IH.
Qed.

(** The deep walk on a used node, against the walk on a fresh one. *)
Lemma readDeep_layered (v : reflect.Value) :
  wfValue v = true →
  ∀ opts p, ∃ r fresh,
    readDeep v opts p = Ok r ∧ readDeep v opts emptyProperty = Ok fresh ∧
    layered p fresh r.
Proof.
  induction v as [|name b data|name dyn IH|name|name e|name e xs
                 |name e xs|name k e entries|name e pointee IH|name fields];
    intros Hwf opts p; rewrite !readDeep_eq; simpl.
  { do 2 eexists. split; [done|split; [done|]].
    apply layered_setType; [apply (layered_setTypeFormat "" "")|done]. }
  all: gtfm_split;
    [do 2 eexists; split; [done|split; [done|]];
     apply layered_setTypeFormat | ].
  - do 2 eexists. split; [|split]; [by destruct b..|].
    apply layered_setTypeFormat.
  - by apply IH.
  - do 2 eexists. split; [done|split; [done|]]. apply layered_setTypeFormat.
  - do 2 eexists. split; [done|split; [done|]]. apply layered_setTypeFormat.
  - do 2 eexists. split; [done|split; [done|]]. apply layered_setTypeFormat.
  - unfold readFromSliceDeep, readFromSliceDeep_body. simpl.
    destruct xs as [|x xs]; simpl.
    + destruct (getTypeFromMapping e) as [[jsType format] kind].
      case_bool_decide.
      { do 2 eexists. split; [done|split; [done|]].
        apply layered_setType; [apply layered_setTypeFormat|done]. }
      destruct (String.eqb jsType ""); simpl.
      { do 2 eexists. split; [done|split; [done|]].
        apply layered_setTypeFormat. }
      destruct (read_total e "" emptyProperty) as [items ->]. simpl.
      do 2 eexists. split; [done|split; [done|]].
      apply layered_setItems, layered_setTypeFormat.
    + simpl in Hwf. apply andb_prop in Hwf as [Hx _].
      apply andb_prop in Hx as [Hvalid Hwfx].
      destruct (Value_Type_valid x Hvalid) as [t ->]. simpl.
      destruct (getTypeFromMapping t) as [[jsType format] kind].
      case_bool_decide.
      { do 2 eexists. split; [done|split; [done|]].
        apply layered_setType; [apply layered_setTypeFormat|done]. }
      destruct (readDeep_total x Hwfx "" emptyProperty) as [items ->]. simpl.
      do 2 eexists. split; [done|split; [done|]].
      apply layered_setItems, layered_setTypeFormat.
  - unfold readFromMapDeep, readFromMapDeep_body. simpl.
    destruct (readEntries_total entries Hwf ∅) as [m' ->]. simpl.
    destruct (Nat.ltb 0 (size m'));
      do 2 eexists; (split; [done|split; [done|]]).
    + apply layered_setProperties, layered_setTypeFormat.
    + apply layered_setTypeFormat.
  - by apply IH.
  - rewrite !readFromStructDeep_closed_form by done.
    do 2 eexists. split; [done|split; [done|]].
    apply layered_struct, layered_setTypeFormat.
Qed.

(** A walk on a node that has nothing but a type leaves the node of the
    walk on a fresh node, provided that node has a type. *)
(** ** C9: serialization is deterministic *)

(** Induction over schema trees, through [Items] and [Properties]. *)
Lemma height_child (m : gmap string property) (k : string) (child : property) :
  m !! k = Some child →
  (height child ≤ map_fold (λ _ c acc, Nat.max (height c) acc) 0 m)%nat.
Proof.
  revert k child.
  apply (map_fold_weak_ind
           (λ r m, ∀ k child, m !! k = Some child → (height child ≤ r)%nat)).
  - intros k child. by rewrite lookup_empty.
  - intros i x m' r _ IH k child.
    rewrite lookup_insert. case_decide as Hik.
    + intros [= ->]. lia.
    + intros Hk. specialize (IH k child Hk). lia.
Qed.

Lemma property_nested_ind (P : property → Prop) :
  (∀ p,
     (∀ items, Items p = Some items → P items) →
     (∀ m k child, Properties p = Some m → m !! k = Some child → P child) →
     P p) →
  ∀ p, P p.
Proof.
  intros Hstep p.
  assert (∀ n q, (height q < n)%nat → P q) as Hn;
    [|apply (Hn (S (height p))); lia].
  clear p. induction n as [|n IH]; intros q Hq; [lia|].
  apply Hstep.
  - intros items Hitems. apply IH.
    destruct q; simpl in *; subst. lia.
  - intros m k child Hm Hk. apply IH.
    pose proof (height_child m k child Hk).
    destruct q; simpl in *; subst. lia.
Qed.

#[global] Instance keyLe_trans : Transitive keyLe.
Proof. intros a b c. unfold keyLe. apply transitivity. Qed.

#[global] Instance keyLe_total : Total keyLe.
Proof. intros a b. unfold keyLe. apply total, _. Qed.

(** The encoder sorts the entries of a map by key. *)
Lemma sortByKey_sorted (entries : list (string * json)) :
  Sorted keyLe (sortByKey entries).
Proof. apply Sorted_merge_sort, _. Qed.

Lemma NoDup_fst_functional {A B} (l : list (A * B)) (k : A) (x1 x2 : B) :
  NoDup l.*1 → (k, x1) ∈ l → (k, x2) ∈ l → x1 = x2.
Proof.
  induction l as [|[k' x] l IH]; simpl; intros Hnd H1 H2.
  { by apply elem_of_nil in H1. }
  apply NoDup_cons in Hnd as [Hk Hnd].
  assert (∀ y, (k', y) ∈ l → False) as Hfresh.
  { intros y Hy. apply Hk. apply list_elem_of_fmap. by exists (k', y). }
  apply elem_of_cons in H1 as [[= -> ->]|H1];
    apply elem_of_cons in H2 as [[= ->]|H2]; try done.
  - by destruct (Hfresh x2).
  - subst. by destruct (Hfresh x1).
  - by apply IH.
Qed.

(** Whatever order [MapRange] yields the entries of a map in, sorting them
    by key gives one list: the keys of a map are distinct. *)
Lemma sortByKey_order_independent (l1 l2 : list (string * json)) :
  NoDup l1.*1 → l1 ≡ₚ l2 → sortByKey l1 = sortByKey l2.
Proof.
  intros Hnodup Hperm. unfold sortByKey.
  apply (Sorted_unique_strong keyLe).
  - intros [k1 x1] [k2 x2] Hin1 Hin2 Hle1 Hle2.
    rewrite merge_sort_Permutation in Hin1.
    rewrite merge_sort_Permutation, <-Hperm in Hin2.
    unfold keyLe in *. simpl in *.
    assert (k1 = k2) as -> by by apply (anti_symm String.le).
    f_equal. by eapply NoDup_fst_functional.
  - apply sortByKey_sorted.
  - apply sortByKey_sorted.
  - by rewrite !merge_sort_Permutation.
Qed.

(** The layout of the output: the members in the order of the struct
    fields, the empty ones left out, the keys of [Properties] in ascending
    order, four spaces of indentation per level. *)
Lemma Marshal_layout :
  Marshal Sample.reverseRange Sample.quoteApostrophe Sample.docAB =
"{
    '$schema': 'http://json-schema.org/schema#',
    'type': 'object',
    'properties': {
        'A': {
            'type': 'boolean'
        },
        'B': {
            'type': 'string'
        }
    },
    'required': [
        'A'
    ]
}".
Proof. by vm_compute. Qed.

Section order_independence.
Variables mapRange1 mapRange2 : gmap string json → list (string * json).
Hypothesis mapRange1_entries : ∀ m, mapRange1 m ≡ₚ map_to_list m.
Hypothesis mapRange2_entries : ∀ m, mapRange2 m ≡ₚ map_to_list m.

Lemma sorted_entries_order_independent (m : gmap string json) :
  sortByKey (mapRange1 m) = sortByKey (mapRange2 m).
Proof.
  apply sortByKey_order_independent.
  - rewrite mapRange1_entries. apply NoDup_fst_map_to_list.
  - by rewrite mapRange1_entries, mapRange2_entries.
Qed.

Lemma propertyMembers_order_independent (p : property) :
  propertyMembers mapRange1 p = propertyMembers mapRange2 p.
Proof.
  induction p as [p IHitems IHprops] using property_nested_ind.
  destruct p as [ty fmt items props req ap]; simpl in *.
  f_equal. f_equal. f_equal; [|f_equal].
  - destruct items as [items|]; [|done]. by rewrite (IHitems items).
  - destruct props as [m|]; [|done].
    assert ((λ child, JObject (propertyMembers mapRange1 child)) <$> m =
            (λ child, JObject (propertyMembers mapRange2 child)) <$> m) as ->.
    { apply map_fmap_ext. intros k child Hk. f_equal. by eapply IHprops. }
    by rewrite sorted_entries_order_independent.
Qed.

End order_independence.

(** C9: serializing a document twice gives the same text, whatever the
    two orders in which [MapRange] yields the entries of the [Properties]
    maps during the two runs: the encoder sorts the entries of every map by
    key, so in every node with properties the members of the "properties"
    object stand in ascending order of their keys. *)
Theorem C9_Marshal_deterministic
    (mapRange1 mapRange2 : gmap string json → list (string * json))
    (quote : string → string) (d : Document) :
  (∀ m, mapRange1 m ≡ₚ map_to_list m) →
  (∀ m, mapRange2 m ≡ₚ map_to_list m) →
  Marshal mapRange1 quote d = Marshal mapRange2 quote d ∧
  ∀ p m, Properties p = Some m → size m ≠ 0 →
    ∃ entries,
      ("properties", JObject entries) ∈ propertyMembers mapRange1 p ∧
      Sorted keyLe entries ∧
      entries ≡ₚ map_to_list
                   ((λ child, JObject (propertyMembers mapRange1 child)) <$> m).
Proof.
  intros H1 H2. split.
  - unfold Marshal, encodeDocument.
    by rewrite (propertyMembers_order_independent mapRange1 mapRange2 H1 H2).
  - intros p m Hm Hsize.
    exists (sortByKey (mapRange1
              ((λ child, JObject (propertyMembers mapRange1 child)) <$> m))).
    split; [|split].
    + destruct p as [ty fmt items props req ap]; simpl in *. subst.
      apply Nat.eqb_neq in Hsize. rewrite Hsize. simpl.
      rewrite !elem_of_app. right. right. right. by left.
    + apply sortByKey_sorted.
    + unfold sortByKey. by rewrite merge_sort_Permutation, H1.
Qed.

Lemma C9_Marshal_deterministic_witness :
  (∀ m : gmap string json, map_to_list m ≡ₚ map_to_list m) ∧
  (∀ m : gmap string json, Sample.reverseRange m ≡ₚ map_to_list m) ∧
  Marshal map_to_list quotePlain Sample.docAB =
    Marshal Sample.reverseRange quotePlain Sample.docAB ∧
  ∀ p m, Properties p = Some m → size m ≠ 0 →
    ∃ entries,
      ("properties", JObject entries) ∈ propertyMembers map_to_list p ∧
      Sorted keyLe entries ∧
      entries ≡ₚ map_to_list
                   ((λ child, JObject (propertyMembers map_to_list child)) <$> m).
Proof.
  assert (∀ m : gmap string json, map_to_list m ≡ₚ map_to_list m) as H1
    by reflexivity.
  assert (∀ m : gmap string json, Sample.reverseRange m ≡ₚ map_to_list m)
    as H2 by (intros m; apply reverse_Permutation).
  split; [exact H1|]. split; [exact H2|].
  exact (C9_Marshal_deterministic map_to_list Sample.reverseRange quotePlain
           Sample.docAB H1 H2).
Defined.

(** * Further properties of the code *)

(** ** Strings: the first comma and the two slices around it *)

Lemma prefix_comma (c : Ascii.ascii) (s : string) :
  String.prefix "," (String c s) = Ascii.eqb c comma.
Proof.
  change (String.prefix "," (String c s)) with
    (if Ascii.ascii_dec comma c then String.prefix "" s else false).
  destruct (Ascii.ascii_dec comma c) as [Hc|Hc].
  - subst c. by destruct s.
  - symmetry. apply Ascii.eqb_neq. intros ->. by apply Hc.
Qed.

Lemma indexComma_cons (c : Ascii.ascii) (s : string) :
  indexComma (String c s) =
    if Ascii.eqb c comma then Some 0 else S <$> indexComma s.
Proof.
  unfold indexComma. cbn [String.index]. rewrite prefix_comma.
  destruct (Ascii.eqb c comma); [done|].
  by destruct (String.index 0 "," s).
Qed.

Lemma indexComma_noComma (s : string) :
  hasComma s = false → indexComma s = None.
Proof.
  induction s as [|c s IH]; [done|]. simpl. intros [Hc Hs]%orb_false_elim.
  by rewrite indexComma_cons, Hc, IH.
Qed.

Lemma indexComma_append (a b : string) :
  hasComma a = false → indexComma (a +:+ "," +:+ b) = Some (String.length a).
Proof.
  induction a as [|c a IH].
  - intros _. change (indexComma (String comma b) = Some 0).
    by rewrite indexComma_cons.
  - intros [Hc Ha]%orb_false_elim.
    change (indexComma (String c (a +:+ "," +:+ b))
            = Some (S (String.length a))).
    by rewrite indexComma_cons, Hc, IH.
Qed.

Lemma sliceTo_append (a b : string) : sliceTo (a +:+ b) (String.length a) = a.
Proof.
  unfold sliceTo. induction a as [|c a IH]; simpl; [by destruct b|].
  by rewrite IH.
Qed.

Lemma substring_all (s : string) : String.substring 0 (String.length s) s = s.
Proof. induction s as [|c s IH]; simpl; [done|]. by rewrite IH. Qed.

Lemma sliceFrom_append (a b : string) :
  sliceFrom (a +:+ "," +:+ b) (String.length a + 1) = b.
Proof.
  unfold sliceFrom. induction a as [|c a IH]; simpl.
  - rewrite Nat.sub_0_r. apply substring_all.
  - apply IH.
Qed.

Lemma indexComma_split (s : string) (i : nat) :
  indexComma s = Some i →
  s = sliceTo s i +:+ "," +:+ sliceFrom s (i + 1) ∧
  hasComma (sliceTo s i) = false.
Proof.
  revert i. induction s as [|c s IH]; intros i; [done|].
  rewrite indexComma_cons. destruct (Ascii.eqb c comma) eqn:Hc.
  - intros [= <-]. apply Ascii.eqb_eq in Hc as ->. split; [|done].
    unfold sliceTo, sliceFrom. simpl. rewrite Nat.sub_0_r.
    by rewrite substring_all.
  - destruct (indexComma s) as [j|]; [|done]. intros [= <-].
    destruct (IH j eq_refl) as [Hs Hj]. split.
    + unfold sliceTo, sliceFrom in *. simpl.
      change (String c s =
              String c (String.substring 0 j s +:+ "," +:+
                        String.substring (j + 1) (String.length s - (j + 1)) s)).
      by rewrite <-Hs.
    + unfold sliceTo in *. simpl. by rewrite Hc, Hj.
Qed.

Lemma indexComma_None (s : string) :
  indexComma s = None → hasComma s = false.
Proof.
  induction s as [|c s IH]; [done|]. rewrite indexComma_cons. simpl.
  destruct (Ascii.eqb c comma); [done|].
  destruct (indexComma s); [done|]. intros _. by apply IH.
Qed.

(** ** X1, X2: [parseTag] cuts a tag at its first comma *)

(** X1: whatever the tag, the name that [parseTag] returns holds no comma,
    and the tag is put together again from the two results: it is the name
    alone, the options being empty, when the tag holds no comma, and the
    name, a comma and the options otherwise. *)
Theorem X1_parseTag_split (tag : string) :
  hasComma (parseTag tag).1 = false ∧
  (if hasComma tag
   then tag = (parseTag tag).1 +:+ "," +:+ (parseTag tag).2
   else tag = (parseTag tag).1 ∧ (parseTag tag).2 = "").
Proof.
  unfold parseTag. destruct (indexComma tag) as [i|] eqn:Hi; simpl.
  - destruct (indexComma_split tag i Hi) as [Htag Hname].
    split; [done|]. destruct (hasComma tag) eqn:Hc; [done|].
    by rewrite (indexComma_noComma tag Hc) in Hi.
  - pose proof (indexComma_None tag Hi) as Hc. by rewrite Hc.
Qed.

(** X2: a name without a comma followed by a comma and any options is
    parsed back into that name and those options, further commas staying
    in the options; and a tag without a comma is the name, with no
    options. *)
Theorem X2_parseTag_join (name opts : string) :
  hasComma name = false →
  parseTag (name +:+ "," +:+ opts) = (name, opts) ∧
  parseTag name = (name, "").
Proof.
  intros Hname. unfold parseTag. split.
  - rewrite (indexComma_append name opts Hname).
    by rewrite sliceTo_append, sliceFrom_append.
  - by rewrite (indexComma_noComma name Hname).
Qed.

Lemma X2_parseTag_join_witness :
  hasComma "foo" = false ∧
  parseTag ("foo" +:+ "," +:+ "omitempty,string") = ("foo", "omitempty,string") ∧
  parseTag "foo" = ("foo", "").
Proof.
  split; [reflexivity|].
  apply (X2_parseTag_join "foo" "omitempty,string"). reflexivity.
Defined.

(** ** X3: [Contains] looks for one of the comma-separated options *)

Lemma Contains_loop_fuel (f1 f2 : nat) (s x : string) :
  (String.length s < f1)%nat → (String.length s < f2)%nat →
  Contains_loop f1 s x = Contains_loop f2 s x.
Proof.
  revert f2 s. induction f1 as [|f1 IH]; intros [|f2] s H1 H2; try lia.
  simpl. destruct (String.eqb_spec s "") as [->|Hs]; [done|].
  assert (0 < String.length s)%nat by (destruct s; [done | simpl; lia]).
  destruct (indexComma s) as [i|].
  - destruct (String.eqb (sliceTo s i) x); [done|].
    pose proof (length_sliceFrom s (i + 1)). apply IH; lia.
  - destruct (String.eqb s x); [done|]. apply IH; simpl; lia.
Qed.

Lemma Contains_loop_enough (fuel : nat) (s x : string) :
  (String.length s < fuel)%nat →
  Contains_loop fuel s x = Some (Contains s x).
Proof.
  intros Hlen. rewrite <-Contains_loop_result.
  apply (Contains_loop_fuel fuel (S (String.length s))); [exact Hlen|].
  apply Nat.lt_succ_diag_r.
Qed.

Lemma length_append (a b : string) :
  String.length (a +:+ b) = (String.length a + String.length b)%nat.
Proof. induction a as [|c a IH]; simpl; [done|]. by rewrite IH. Qed.

(** The first option is compared, then the rest is searched. *)
Lemma Contains_first_option (a b x : string) :
  hasComma a = false →
  Contains (a +:+ "," +:+ b) x = String.eqb a x || Contains b x.
Proof.
  intros Ha.
  pose proof (Contains_loop_result (a +:+ "," +:+ b) x) as Hloop.
  cbn [Contains_loop] in Hloop.
  assert (String.eqb (a +:+ "," +:+ b) "" = false) as Hne
    by (apply String.eqb_neq; by destruct a).
  rewrite Hne, (indexComma_append a b Ha) in Hloop.
  rewrite sliceTo_append, sliceFrom_append in Hloop.
  destruct (String.eqb a x); [by injection Hloop as <-|].
  rewrite Contains_loop_enough in Hloop.
  - by injection Hloop as <-.
  - rewrite !length_append. simpl. lia.
Qed.

(** A list of one option. *)
Lemma Contains_one_option (a x : string) :
  hasComma a = false →
  Contains a x = negb (String.eqb a "") && String.eqb a x.
Proof.
  intros Ha. destruct (String.eqb_spec a "") as [->|Hne]; [done|].
  pose proof (Contains_loop_result a x) as Hloop.
  cbn [Contains_loop] in Hloop.
  apply String.eqb_neq in Hne.
  rewrite Hne, (indexComma_noComma a Ha) in Hloop.
  destruct (String.eqb a x); [by injection Hloop as <-|].
  destruct a as [|c a]; [done|].
  change (Some false = Some (Contains (String c a) x)) in Hloop.
  by injection Hloop as <-.
Qed.

Lemma splitComma_noComma (a : string) :
  hasComma a = false → splitComma a = [a].
Proof.
  induction a as [|c a IH]; [done|]. simpl.
  intros [Hc Ha]%orb_false_elim. by rewrite Hc, IH.
Qed.

Lemma splitComma_append (a b : string) :
  hasComma a = false → splitComma (a +:+ "," +:+ b) = a :: splitComma b.
Proof.
  induction a as [|c a IH]; [done|].
  intros [Hc Ha]%orb_false_elim.
  change (splitComma (String c (a +:+ "," +:+ b))
          = String c a :: splitComma b).
  cbn [splitComma]. by rewrite Hc, IH.
Qed.

(** X3: for an option name that is not empty, [Contains] answers true
    exactly when the name is one of the comma-separated pieces of the
    option list: a whole piece, not a part of one. *)
Theorem X3_Contains_pieces (o optionName : string) :
  optionName ≠ "" →
  Contains o optionName = true ↔ optionName ∈ splitComma o.
Proof.
  intros Hx.
  assert (∀ n o, (String.length o < n)%nat →
            (Contains o optionName = true ↔ optionName ∈ splitComma o))
    as Hn; [|apply (Hn (S (String.length o))); lia].
  clear o. induction n as [|n IH]; intros o Hlen; [lia|].
  destruct (indexComma o) as [i|] eqn:Hi.
  - destruct (indexComma_split o i Hi) as [Ho Ha].
    rewrite Ho, (Contains_first_option _ _ _ Ha), (splitComma_append _ _ Ha).
    rewrite orb_true_iff, elem_of_cons, String.eqb_eq.
    rewrite IH; [intuition congruence|].
    pose proof (length_sliceFrom o (i + 1)).
    assert (0 < String.length o)%nat by (destruct o; [done | simpl; lia]).
    lia.
  - pose proof (indexComma_None o Hi) as Ha.
    rewrite (Contains_one_option _ _ Ha), (splitComma_noComma _ Ha).
    rewrite list_elem_of_singleton, andb_true_iff, negb_true_iff.
    rewrite String.eqb_eq, String.eqb_neq. intuition congruence.
Qed.

Lemma X3_Contains_pieces_witness :
  "omitempty" ≠ "" ∧
  (Contains "string,omitempty" "omitempty" = true
   ↔ "omitempty" ∈ splitComma "string,omitempty").
Proof.
  split; [discriminate|].
  apply (X3_Contains_pieces "string,omitempty" "omitempty"). discriminate.
Defined.

(** ** X4: a member named "-" *)

Lemma foldM_app {A S} (f : S → A → result S) (l1 l2 : list A) (s : S) :
  foldM f (l1 ++ l2) s = foldM f l1 s ≫= foldM f l2.
Proof.
  revert s. induction l1 as [|x l1 IH]; intros s; simpl; [done|].
  destruct (f s x) as [s'|msg]; simpl; [apply IH | done].
Qed.

Lemma foldM_skip {A S} (f : S → A → result S) (l1 l2 : list A) (x : A) (s : S) :
  (∀ s', f s' x = Ok s') →
  foldM f (l1 ++ x :: l2) s = foldM f (l1 ++ l2) s.
Proof.
  intros Hx. rewrite !foldM_app. simpl.
  destruct (foldM f l1 s) as [s'|msg]; simpl; [|done]. by rewrite Hx.
Qed.

(** X4: a member whose resolved name is "-" has no effect at all: the
    walk of a struct type, and the deep walk of a struct value, give the
    outcome they give without that member, whatever the member's type,
    value and other tag options, and whether it is embedded or not. *)
Theorem X4_skipped_member (name : string)
    (pre post : list reflect.StructField)
    (vpre vpost : list (reflect.StructField * reflect.Value))
    (f : reflect.StructField) (v : reflect.Value)
    (opts fopts : tagOptions) (p : property) :
  resolvedName f = ("-", fopts) →
  read (reflect.TStruct name (pre ++ f :: post)) opts p =
    read (reflect.TStruct name (pre ++ post)) opts p ∧
  readDeep (reflect.VStruct name (vpre ++ (f, v) :: vpost)) opts p =
    readDeep (reflect.VStruct name (vpre ++ vpost)) opts p.
Proof.
  intros Hf.
  assert (formatMapping !! name = Some ("string", "date-time")
          ∨ formatMapping !! name = None) as [Hn|Hn]
    by (rewrite formatMapping_lookup; case_decide; auto).
  { split.
    - rewrite !read_eq. unfold getTypeFromMapping. simpl. by rewrite Hn.
    - rewrite !readDeep_eq. unfold getTypeFromMapping. simpl. by rewrite Hn. }
  split.
  - rewrite !read_eq, !getTypeFromMapping_unlisted by done. simpl.
    rewrite !readFromStruct_eq. apply foldM_skip.
    intros q. by apply (readField_skipped read q f fopts).
  - rewrite !readDeep_eq. simpl.
    rewrite !getTypeFromMapping_unlisted by done. simpl.
    rewrite !readFromStructDeep_eq. apply foldM_skip.
    intros q. rewrite readFieldDeep_as_readField.
    by apply (readField_skipped _ q f fopts).
Qed.

Lemma X4_skipped_member_witness :
  resolvedName Sample.fieldEmbeddedSkipped = ("-", "") ∧
  read (reflect.TStruct "main.T"
          ([Sample.fieldA] ++ Sample.fieldEmbeddedSkipped :: [Sample.fieldB]))
       "" emptyProperty =
    read (reflect.TStruct "main.T" ([Sample.fieldA] ++ [Sample.fieldB]))
         "" emptyProperty ∧
  readDeep (reflect.VStruct "main.T"
              ([] ++ (Sample.fieldEmbeddedSkipped, Sample.vEmbeddedType)
                  :: [(Sample.fieldZoo, Sample.vString "")]))
           "" emptyProperty =
    readDeep (reflect.VStruct "main.T"
                ([] ++ [(Sample.fieldZoo, Sample.vString "")]))
             "" emptyProperty.
Proof.
  split; [reflexivity|].
  apply (X4_skipped_member "main.T" [Sample.fieldA] [Sample.fieldB] []
           [(Sample.fieldZoo, Sample.vString "")]
           Sample.fieldEmbeddedSkipped Sample.vEmbeddedType "" ""
           emptyProperty).
  reflexivity.
Defined.

(** ** X5, X6: a record of named members with distinct names *)

Lemma propertiesAfter_named
    (members : list (reflect.StructField * property))
    (m : gmap string property) :
  Forall (λ fn, namedMember fn.1) members →
  NoDup ((λ fn, (resolvedName fn.1).1) <$> members) →
  propertiesAfter members m =
    list_to_map ((λ fn, ((resolvedName fn.1).1, fn.2)) <$> members) ∪ m.
Proof.
  intros Hnamed. revert m.
  induction Hnamed as [|[f node] members [Hname Hanon] _ IH]; intros m Hnd.
  { simpl. by rewrite (left_id_L ∅ (∪)). }
  apply NoDup_cons in Hnd as [Hfresh Hnd]. simpl in *.
  rewrite IH by done.
  destruct (resolvedName f) as [n o] eqn:Hn. simpl in *.
  destruct (member_named f n o node Hn Hname Hanon) as [-> _].
  rewrite <-insert_union_singleton_l, <-insert_union_r, insert_union_l; [done|].
  apply not_elem_of_list_to_map_1.
  by rewrite <-list_fmap_compose.
Qed.

Lemma requiredAfter_named
    (members : list (reflect.StructField * property)) (req : list string) :
  Forall (λ fn, namedMember fn.1) members →
  requiredAfter members req = (req ++ requiredNames members.*1)%list.
Proof.
  intros Hnamed. unfold requiredAfter, requiredNames. f_equal.
  induction Hnamed as [|[f node] members [Hname Hanon] _ IH]; [done|].
  simpl. rewrite IH. rewrite filter_cons.
  destruct (resolvedName f) as [n o] eqn:Hn. simpl in *.
  rewrite Hn in Hname.
  destruct (member_named f n o node Hn Hname Hanon) as [_ ->].
  destruct (Contains o "omitempty"); case_decide; try done.
  by rewrite fmap_cons, Hn.
Qed.

(** X5: for a record type whose members are all named (none skipped by
    "-", none embedded) and have distinct resolved names, the record walk
    of shallow mode returns the node of type "object" whose properties
    map every member's resolved name to the node inferred for that
    member's type, one entry per member, whose required names are the
    names of the members without "omitempty", in the order of the members,
    after those the node had, and whose [AdditionalProperties] is false. *)
Theorem X5_named_record (name : string) (fields : list reflect.StructField)
    (p : property) :
  Forall namedMember fields →
  NoDup ((λ f, (resolvedName f).1) <$> fields) →
  readFromStruct (reflect.TStruct name fields) p =
    Ok (Property "object" (Format p) (Items p)
          (Some (list_to_map
                   ((λ f, ((resolvedName f).1, memberNode f)) <$> fields)))
          (Required p ++ requiredNames fields) false) ∧
  Forall (λ f, read (reflect.Typ f) (resolvedName f).2 emptyProperty
               = Ok (memberNode f)) fields ∧
  size (list_to_map ((λ f, ((resolvedName f).1, memberNode f)) <$> fields)
          : gmap string property) = length fields.
Proof.
  intros Hnamed Hnd. split; [|split].
  - rewrite readFromStruct_closed_form.
    rewrite propertiesAfter_named, requiredAfter_named.
    + rewrite (right_id_L ∅ (∪)), <-!list_fmap_compose.
      change (fst ∘ shallowMember <$> fields) with (id <$> fields).
      by rewrite (list_fmap_id fields).
    + by apply Forall_fmap.
    + by apply Forall_fmap.
    + by rewrite <-list_fmap_compose.
  - apply Forall_forall. intros f _. apply read_memberNode.
  - rewrite map_size_list_to_map, length_fmap; [done|].
    by rewrite <-list_fmap_compose.
Qed.

Lemma X5_named_record_witness :
  Forall namedMember [Sample.fieldA; Sample.fieldB] ∧
  NoDup ((λ f, (resolvedName f).1) <$> [Sample.fieldA; Sample.fieldB]) ∧
  readFromStruct Sample.tAB emptyProperty =
    Ok (Property "object" "" None
          (Some (list_to_map
                   ((λ f, ((resolvedName f).1, memberNode f))
                      <$> [Sample.fieldA; Sample.fieldB])))
          ([] ++ requiredNames [Sample.fieldA; Sample.fieldB]) false) ∧
  Forall (λ f, read (reflect.Typ f) (resolvedName f).2 emptyProperty
               = Ok (memberNode f)) [Sample.fieldA; Sample.fieldB] ∧
  size (list_to_map ((λ f, ((resolvedName f).1, memberNode f))
                       <$> [Sample.fieldA; Sample.fieldB])
          : gmap string property) = 2.
Proof.
  assert (Forall namedMember [Sample.fieldA; Sample.fieldB]) as Hnamed
    by (repeat constructor; discriminate).
  assert (NoDup ((λ f, (resolvedName f).1) <$> [Sample.fieldA; Sample.fieldB]))
    as Hnd
    by (apply (bool_decide_unpack (NoDup ["A"; "B"])); by vm_compute).
  split; [exact Hnamed|]. split; [exact Hnd|].
  exact (X5_named_record "main.AB" [Sample.fieldA; Sample.fieldB]
           emptyProperty Hnamed Hnd).
Defined.

(** X6: the same in deep mode: for a struct value whose members are all
    named and have distinct resolved names, the record walk returns the
    node of type "object" whose properties map every member's resolved name
    to the node inferred from that member's value, with the required names
    of the members without "omitempty". *)
Theorem X6_named_record_deep (name : string)
    (fields : list (reflect.StructField * reflect.Value)) (p : property) :
  wfValue (reflect.VStruct name fields) = true →
  Forall namedMember fields.*1 →
  NoDup ((λ f, (resolvedName f).1) <$> fields.*1) →
  readFromStructDeep (reflect.VStruct name fields) p =
    Ok (Property "object" (Format p) (Items p)
          (Some (list_to_map
                   ((λ fv, ((resolvedName fv.1).1, memberNodeDeep fv))
                      <$> fields)))
          (Required p ++ requiredNames fields.*1) false) ∧
  Forall (λ fv, readDeep fv.2 (resolvedName fv.1).2 emptyProperty
                = Ok (memberNodeDeep fv)) fields.
Proof.
  intros Hwf Hnamed Hnd. split.
  - rewrite readFromStructDeep_closed_form by done.
    rewrite propertiesAfter_named, requiredAfter_named.
    + rewrite (right_id_L ∅ (∪)), <-!list_fmap_compose. done.
    + rewrite Forall_fmap in Hnamed. by apply Forall_fmap.
    + rewrite Forall_fmap in Hnamed. by apply Forall_fmap.
    + by rewrite <-!list_fmap_compose in *.
  - apply Forall_forall. intros fv Hin. apply readDeep_memberNodeDeep.
    simpl in Hwf. rewrite forallb_forall in Hwf.
    apply list_elem_of_In, Hwf in Hin. by apply andb_prop in Hin as [_ ?].
Qed.

Lemma X6_named_record_deep_witness :
  wfValue Sample.vAB = true ∧
  Forall namedMember [Sample.fieldA; Sample.fieldB] ∧
  NoDup ((λ f, (resolvedName f).1) <$> [Sample.fieldA; Sample.fieldB]) ∧
  readFromStructDeep Sample.vAB emptyProperty =
    Ok (Property "object" "" None
          (Some (list_to_map
                   ((λ fv, ((resolvedName fv.1).1, memberNodeDeep fv))
                      <$> [(Sample.fieldA,
                            reflect.VBasic "bool" reflect.BBool "false");
                           (Sample.fieldB, Sample.vString "")])))
          ([] ++ requiredNames [Sample.fieldA; Sample.fieldB]) false) ∧
  Forall (λ fv, readDeep fv.2 (resolvedName fv.1).2 emptyProperty
                = Ok (memberNodeDeep fv))
         [(Sample.fieldA, reflect.VBasic "bool" reflect.BBool "false");
          (Sample.fieldB, Sample.vString "")].
Proof.
  assert (Forall namedMember [Sample.fieldA; Sample.fieldB]) as Hnamed
    by (repeat constructor; discriminate).
  assert (NoDup ((λ f, (resolvedName f).1) <$> [Sample.fieldA; Sample.fieldB]))
    as Hnd
    by (apply (bool_decide_unpack (NoDup ["A"; "B"])); by vm_compute).
  split; [reflexivity|]. split; [exact Hnamed|]. split; [exact Hnd|].
  exact (X6_named_record_deep "main.AB"
           [(Sample.fieldA, reflect.VBasic "bool" reflect.BBool "false");
            (Sample.fieldB, Sample.vString "")]
           emptyProperty eq_refl Hnamed Hnd).
Defined.

(** ** X7, X8: the shape of the schema that a walk builds *)

Lemma Shaped_leaf (ty fmt : string) :
  Shaped (Property ty fmt None None [] false).
Proof.
  constructor; simpl; try done.
  repeat split; try done; [by intros [? ?]..|by intros ? ?%elem_of_nil].
Qed.

Lemma Shaped_setTypeFormat (jsType format : string) :
  Shaped (setTypeFormat jsType format emptyProperty).
Proof.
  unfold setTypeFormat.
  destruct (String.eqb jsType ""), (String.eqb format "");
    apply Shaped_leaf.
Qed.

Lemma Shaped_array (fmt : string) (items : property) :
  Shaped items → Shaped (Property "array" fmt (Some items) None [] false).
Proof.
  intros Hitems. constructor; simpl.
  - repeat split; try done; [by intros [? ?]|by intros ? ?%elem_of_nil].
  - by intros ? [= <-].
  - done.
Qed.

Lemma Shaped_wildcard (fmt jsType format : string) :
  Shaped (Property "object" fmt None
            (Some {[ ".*" := Property jsType format None None [] false ]})
            [] false).
Proof.
  constructor; simpl.
  - repeat split; try done; [by intros [? ?]|by intros ? ?%elem_of_nil].
  - done.
  - intros m key child [= <-] [_ <-]%lookup_singleton_Some.
    apply Shaped_leaf.
Qed.

Lemma Shaped_additional (fmt : string) :
  Shaped (Property "object" fmt None None [] true).
Proof.
  constructor; simpl; try done.
  repeat split; try done; [by intros [? ?]..|by intros ? ?%elem_of_nil].
Qed.


(** What a member writes comes from its node. *)
Lemma memberProperties_Shaped field node key child :
  Shaped node → memberProperties field node !! key = Some child →
  Shaped child.
Proof.
  intros Hnode. unfold memberProperties.
  destruct (resolvedName field) as [n o].
  destruct (String.eqb n "-"); [by rewrite lookup_empty|].
  destruct (reflect.Anonymous field).
  - destruct Hnode as [node _ _ Hchildren].
    destruct (Properties node) as [m|] eqn:Hm; simpl;
      [|by rewrite lookup_empty].
    by apply Hchildren.
  - by intros [_ <-]%lookup_singleton_Some.
Qed.

Lemma memberRequired_written field node name :
  Shaped node → name ∈ memberRequired field node →
  name ∈ dom (memberProperties field node).
Proof.
  intros Hnode. unfold memberRequired, memberProperties.
  destruct (resolvedName field) as [n o].
  destruct (String.eqb n "-"); [by intros ?%elem_of_nil|].
  destruct (reflect.Anonymous field).
  - destruct Hnode as [node (_ & _ & _ & Hreq) _ _].
    intros (m & -> & Hk)%Hreq. simpl. by apply elem_of_dom.
  - destruct (Contains o "omitempty"); [by intros ?%elem_of_nil|].
    intros ->%list_elem_of_singleton. rewrite dom_singleton_L. set_solver.
Qed.

Lemma propertiesAfter_lookup members m key child :
  propertiesAfter members m !! key = Some child →
  m !! key = Some child ∨
  ∃ fn, fn ∈ members ∧ memberProperties fn.1 fn.2 !! key = Some child.
Proof.
  revert m. induction members as [|fn members IH]; intros m; [by left|].
  simpl. intros [Hk|(fn' & Hin & Hk)]%IH.
  - apply lookup_union_Some_raw in Hk as [Hk|[_ Hk]]; [right|by left].
    exists fn. split; [apply list_elem_of_here|done].
  - right. exists fn'. split; [by apply list_elem_of_further|done].
Qed.

Lemma propertiesAfter_written members m fn name :
  fn ∈ members → name ∈ dom (memberProperties fn.1 fn.2) →
  name ∈ dom (propertiesAfter members m).
Proof.
  intros (pre & post & ->)%list_elem_of_split Hname.
  rewrite propertiesAfter_split. apply propertiesAfter_dom.
  rewrite dom_union_L. set_solver.
Qed.

Lemma Shaped_struct (fmt : string)
    (members : list (reflect.StructField * property)) :
  Forall (λ fn, Shaped fn.2) members →
  Shaped (Property "object" fmt None (Some (propertiesAfter members ∅))
            (requiredAfter members []) false).
Proof.
  intros Hmembers. rewrite Forall_forall in Hmembers.
  constructor; simpl.
  - repeat split; try done; [by intros [? ?]|].
    intros name Hname. eexists. split; [done|]. apply elem_of_dom.
    unfold requiredAfter in Hname. simpl in Hname.
    apply list_elem_of_In, in_concat in Hname as (names & Hin & Hname).
    apply in_map_iff in Hin as (fn & <- & Hfn).
    apply list_elem_of_In in Hfn, Hname.
    eapply propertiesAfter_written; [done|].
    by apply memberRequired_written; [apply Hmembers|].
  - done.
  - intros ? key child [= <-] [Hk|(fn & Hin & Hk)]%propertiesAfter_lookup.
    + by rewrite lookup_empty in Hk.
    + eapply memberProperties_Shaped; [by apply Hmembers|done].
Qed.

Lemma read_Shaped (t : reflect.rtype) (opts : tagOptions) :
  ∃ r, read t opts emptyProperty = Ok r ∧ Shaped r.
Proof.
  revert opts.
  induction t as [name b|name|name|name e IH|name n e IH|name e IH
                 |name k e IHk IH|name e IH|name fields IH]
    using rtype_nested_ind; intros opts; rewrite read_eq;
    (gtfm_split;
     [eexists; split; [done|]; apply (Shaped_leaf "string" "date-time")|]).
  - destruct b; simpl; eexists; (split; [done|]); apply Shaped_leaf.
  - eexists. split; [done|]. apply Shaped_leaf.
  - eexists. split; [done|]. apply Shaped_leaf.
  - eexists. split; [done|]. apply Shaped_leaf.
  - eexists. split; [done|]. apply Shaped_leaf.
  - unfold readFromSlice, readFromSlice_body. simpl.
    destruct (getTypeFromMapping e) as [[jsType format] kind].
    case_bool_decide.
    { eexists. split; [done|]. apply Shaped_leaf. }
    destruct (String.eqb jsType ""); simpl.
    { eexists. split; [done|]. apply Shaped_leaf. }
    destruct (IH "") as (items & -> & Hitems). simpl.
    eexists. split; [done|]. by apply Shaped_array.
  - unfold readFromMap. simpl.
    destruct (getTypeFromMapping e) as [[jsType format] kind].
    destruct (String.eqb jsType ""); simpl; eexists; (split; [done|]).
    + apply Shaped_additional.
    + apply Shaped_wildcard.
  - apply IH.
  - rewrite readFromStruct_closed_form. simpl.
    eexists. split; [done|]. apply Shaped_struct.
    apply Forall_fmap. eapply Forall_impl; [exact IH|].
    intros f Hf. simpl.
    destruct (Hf (resolvedName f).2) as (r & Hr & Hshaped).
    unfold memberNode. by rewrite Hr.
Qed.


(** X7: on every type that does not contain itself (every descriptor, a
    finite tree) the shallow walk of a fresh node returns, and builds a
    schema in which every node, down to the leaves, has items only under
    the type "array", has properties only under the type "object", has
    [AdditionalProperties] set only under the type "object" and without
    properties, and lists as required only names that are keys of its
    properties; so does [Read] on a new document, for every input of such
    a type that is not nil.  (On a type that contains itself the source
    does not return; such a type has no descriptor.) *)
Theorem X7_read_shape (t : reflect.rtype) (opts : tagOptions) :
  (∃ r, read t opts emptyProperty = Ok r ∧ Shaped r) ∧
  (∀ v schema, reflect.Value_Type v = Ok t →
     ∃ d, Read (Some v) (NewDocument schema) = Ok d ∧ Shaped (root d)).
Proof.
  split; [apply read_Shaped|].
  intros v schema Ht. unfold Read. simpl. rewrite Ht. simpl.
  assert (root (setDefaultSchema (NewDocument schema)) = emptyProperty) as ->
    by (unfold setDefaultSchema; simpl; by destruct (String.eqb schema "")).
  destruct (read_Shaped t "") as (r & -> & Hr). simpl. eauto.
Qed.



(** ** X9: where the deep walk and the shallow walk agree *)

Lemma readField_ext walk1 walk2 p field :
  (∀ opts q, walk1 (reflect.Typ field) opts q
             = walk2 (reflect.Typ field) opts q) →
  readField walk1 p field = readField walk2 p field.
Proof.
  intros Hwalk. rewrite !readField_eq.
  destruct (resolvedName field) as [name opts]. by rewrite Hwalk.
Qed.

Lemma readFields_agree (fields : list (reflect.StructField * reflect.Value))
    (p : property) :
  Forall (λ fx, ∀ opts q, readDeep fx.2 opts q
                          = read (reflect.Typ fx.1) opts q) fields →
  foldM (readFieldDeep readDeep) fields p = foldM (readField read) fields.*1 p.
Proof.
  intros Hfields. revert p.
  induction Hfields as [|[f x] fields Hfx _ IH]; intros p; [done|].
  rewrite fmap_cons.
  change (readFieldDeep readDeep p (f, x) ≫= foldM (readFieldDeep readDeep) fields
          = readField read p f ≫= foldM (readField read) fields.*1).
  rewrite readFieldDeep_as_readField.
  rewrite (readField_ext _ read p f) by (intros; apply Hfx).
  destruct (readField read p f); simpl; [apply IH|done].
Qed.

Lemma readDeep_plain (v : reflect.Value) :
  plainValue v →
  ∀ t, reflect.Value_Type v = Ok t →
  ∀ opts p, readDeep v opts p = read t opts p.
Proof.
  induction v as [|name b data|name dyn IH|name|name e|name e xs IH
                 |name e xs IH|name k e entries IH|name e pointee IH
                 |name fields IH] using Value_nested_ind;
    intros Hplain t Ht opts p; try done;
    simpl in Ht; injection Ht as <-;
    rewrite readDeep_eq, read_eq; simpl; (gtfm_split; [done|]); try done.
  - by destruct b.
  - unfold readFromSliceDeep, readFromSliceDeep_body,
      readFromSlice, readFromSlice_body. simpl.
    destruct xs as [|x xs]; [done|].
    destruct Hplain as [Hmapped [[Hx Hplainx] _]]. simpl.
    rewrite Hx. simpl.
    destruct (getTypeFromMapping e) as [[jsType format] kind].
    case_bool_decide; [done|].
    simpl in Hmapped. apply String.eqb_neq in Hmapped; [|done].
    rewrite Hmapped. simpl.
    apply Forall_cons_1 in IH as [IHx _].
    by rewrite (IHx Hplainx e Hx).
  - destruct Hplain as [Hpointee Hplain]. by apply IH.
  - rewrite readFromStructDeep_eq, readFromStruct_eq.
    apply readFields_agree. clear p.
    induction IH as [|[f x] fields IHx _ IHl]; [done|].
    destruct Hplain as [[Hx Hplainx] Hplain]. constructor.
    + intros o q. simpl in *. by apply IHx.
    + by apply IHl.
Qed.

(** X9: on a value built only from basic values, functions, channels,
    arrays, structs, pointers that are not nil and slices, in which every
    part has the type its place declares and every slice with elements has
    an element type with a type string, the deep walk does what the
    shallow walk of the value's type does, on every node; so [ReadDeep] and
    [Read] leave the same document.  The two modes differ only through
    maps, interface values, nil pointers and slices of elements without a
    type string. *)
Theorem X9_deep_agrees_with_shallow (v : reflect.Value) (d : Document) :
  plainValue v →
  (∃ t, reflect.Value_Type v = Ok t ∧
        ∀ opts p, readDeep v opts p = read t opts p) ∧
  ReadDeep (Some v) d = Read (Some v) d.
Proof.
  intros Hplain.
  assert (∃ t, reflect.Value_Type v = Ok t) as [t Ht]
    by (apply Value_Type_valid; by destruct v).
  split.
  - exists t. split; [done|]. by apply readDeep_plain.
  - unfold ReadDeep, Read. simpl. rewrite Ht. simpl.
    by rewrite (readDeep_plain v Hplain t Ht).
Qed.

Lemma X9_deep_agrees_with_shallow_witness :
  plainValue (reflect.VPtr "*main.AB" Sample.tAB Sample.vAB) ∧
  (∃ t, reflect.Value_Type (reflect.VPtr "*main.AB" Sample.tAB Sample.vAB)
          = Ok t ∧
        ∀ opts p, readDeep (reflect.VPtr "*main.AB" Sample.tAB Sample.vAB)
                           opts p = read t opts p) ∧
  ReadDeep (Some (reflect.VPtr "*main.AB" Sample.tAB Sample.vAB))
           (NewDocument "") =
    Read (Some (reflect.VPtr "*main.AB" Sample.tAB Sample.vAB))
         (NewDocument "").
Proof.
  assert (plainValue (reflect.VPtr "*main.AB" Sample.tAB Sample.vAB))
    as Hplain by (simpl; repeat split).
  split; [exact Hplain|].
  exact (X9_deep_agrees_with_shallow _ (NewDocument "") Hplain).
Defined.

(** ** X10: the deep walk of a map whose keys get distinct names *)

Lemma readEntries_closed_form entries :
  forallb (λ kv, reflect.Value_IsValid kv.1 && wfValue kv.1
                 && reflect.Value_IsValid kv.2 && wfValue kv.2) entries
    = true →
  ∀ m0, foldM (readEntryDeep readDeep) entries m0
        = Ok (entriesAfter entries m0).
Proof.
  induction entries as [|[key value] entries IH]; intros Hwf m0; [done|].
  simpl in Hwf. apply andb_prop in Hwf as [Hkv Hwf].
  apply andb_prop in Hkv as [_ Hwfv].
  destruct (readDeep_total value Hwfv "" emptyProperty) as [child Hchild].
  assert (entryNode value = child) as Hnode
    by (unfold entryNode; by rewrite Hchild).
  change (entriesAfter ((key, value) :: entries) m0)
    with (entriesAfter entries (<[keyName key := entryNode value]> m0)).
  rewrite Hnode, <-(IH Hwf). simpl.
  rewrite mapKeyToString_unwrapKey. simpl. by rewrite Hchild.
Qed.

Lemma entryNames_fst (entries : list (reflect.Value * reflect.Value)) :
  ((λ kv, (keyName kv.1, entryNode kv.2)) <$> entries).*1
  = keyName <$> entries.*1.
Proof. by rewrite <-!list_fmap_compose. Qed.

Lemma entriesAfter_distinct entries (m : gmap string property) :
  NoDup (keyName <$> entries.*1) →
  entriesAfter entries m =
    list_to_map ((λ kv, (keyName kv.1, entryNode kv.2)) <$> entries) ∪ m.
Proof.
  revert m. induction entries as [|[key value] entries IH]; intros m Hnd.
  { simpl. by rewrite (left_id_L ∅ (∪)). }
  rewrite !fmap_cons in Hnd. apply NoDup_cons in Hnd as [Hfresh Hnd].
  unfold entriesAfter in *. simpl. rewrite IH by done.
  rewrite <-insert_union_l. apply symmetry, insert_union_r.
  apply not_elem_of_list_to_map_1. by rewrite entryNames_fst.
Qed.

(** X10: in deep mode, a map value with at least one entry whose keys get
    names that differ from one another -- as the keys of a map with string
    keys do, the name of a string key being its text -- gets one property
    per entry: [Properties] maps the name of each key to the node inferred
    from that entry's value, the type is "object" and nothing else
    changes.  The result is the same for every order in which the
    iteration yields the entries. *)
Theorem X10_map_distinct_names (name : string) (key elem : reflect.rtype)
    (entries : list (reflect.Value * reflect.Value))
    (opts : tagOptions) (p : property) :
  formatMapping !! name = None →
  wfValue (reflect.VMap name key elem entries) = true →
  entries ≠ [] →
  NoDup (keyName <$> entries.*1) →
  readDeep (reflect.VMap name key elem entries) opts p =
    Ok (Property "object" (Format p) (Items p)
          (Some (list_to_map
                   ((λ kv, (keyName kv.1, entryNode kv.2)) <$> entries)))
          (Required p) (AdditionalProperties p)) ∧
  size (list_to_map ((λ kv, (keyName kv.1, entryNode kv.2)) <$> entries)
          : gmap string property) = length entries ∧
  Forall (λ kv, mapKeyToString kv.1 = Ok (keyName kv.1) ∧
                readDeep kv.2 "" emptyProperty = Ok (entryNode kv.2))
         entries ∧
  ∀ entries', entries' ≡ₚ entries →
    readDeep (reflect.VMap name key elem entries') opts p =
      readDeep (reflect.VMap name key elem entries) opts p.
Proof.
  intros Hname Hwf Hne Hnd.
  assert (∀ l, l ≡ₚ entries →
    readDeep (reflect.VMap name key elem l) opts p =
      Ok (Property "object" (Format p) (Items p)
            (Some (list_to_map
                     ((λ kv, (keyName kv.1, entryNode kv.2)) <$> entries)))
            (Required p) (AdditionalProperties p))) as Hany.
  { intros l Hl. rewrite readDeep_eq. simpl.
    rewrite getTypeFromMapping_unlisted by done. simpl.
    unfold readFromMapDeep, readFromMapDeep_body. simpl.
    assert (forallb (λ kv, reflect.Value_IsValid kv.1 && wfValue kv.1
                     && reflect.Value_IsValid kv.2 && wfValue kv.2) l
            = true) as Hwfl.
    { simpl in Hwf. rewrite forallb_forall in Hwf. apply forallb_forall.
      intros kv Hin. apply Hwf. apply list_elem_of_In.
      rewrite <-Hl. by apply list_elem_of_In. }
    rewrite (readEntries_closed_form l Hwfl ∅). simpl.
    assert (NoDup (keyName <$> l.*1)) as Hndl by by rewrite Hl.
    rewrite (entriesAfter_distinct l ∅ Hndl), (right_id_L ∅ (∪)).
    assert (NoDup ((λ kv, (keyName kv.1, entryNode kv.2)) <$> l).*1)
      as Hnd1 by by rewrite entryNames_fst.
    rewrite map_size_list_to_map, length_fmap by done.
    destruct l as [|kv l].
    { apply Permutation_nil_l in Hl. by subst. }
    simpl Nat.ltb. cbv iota.
    rewrite (list_to_map_proper _ ((λ kv, (keyName kv.1, entryNode kv.2))
                                     <$> entries) Hnd1) by by rewrite Hl.
    done. }
  split; [by apply Hany|]. split; [|split].
  - rewrite map_size_list_to_map, length_fmap; [done|].
    by rewrite entryNames_fst.
  - apply Forall_forall. intros [k v] Hin. simpl.
    split; [apply mapKeyToString_unwrapKey|].
    simpl in Hwf. rewrite forallb_forall in Hwf.
    apply list_elem_of_In, Hwf in Hin. apply andb_prop in Hin as [_ Hv].
    unfold entryNode.
    by destruct (readDeep_total v Hv "" emptyProperty) as [child ->].
  - intros l Hl. rewrite (Hany l Hl). symmetry. by apply Hany.
Qed.

Lemma X10_map_distinct_names_witness :
  formatMapping !! "map[string]int" = None ∧
  wfValue (reflect.VMap "map[string]int" Sample.tString Sample.tInt
             [(Sample.vString "a", Sample.vInt "1");
              (Sample.vString "b", Sample.vInt "2")]) = true ∧
  NoDup (keyName <$> [(Sample.vString "a", Sample.vInt "1");
                      (Sample.vString "b", Sample.vInt "2")].*1) ∧
  readDeep (reflect.VMap "map[string]int" Sample.tString Sample.tInt
              [(Sample.vString "a", Sample.vInt "1");
               (Sample.vString "b", Sample.vInt "2")]) "" emptyProperty =
    Ok (Property "object" "" None
          (Some (list_to_map
                   ((λ kv, (keyName kv.1, entryNode kv.2))
                      <$> [(Sample.vString "a", Sample.vInt "1");
                           (Sample.vString "b", Sample.vInt "2")])))
          [] false).
Proof.
  assert (NoDup (keyName <$> [(Sample.vString "a", Sample.vInt "1");
                              (Sample.vString "b", Sample.vInt "2")].*1))
    as Hnd by (apply (bool_decide_unpack (NoDup ["a"; "b"])); by vm_compute).
  split; [done|]. split; [done|]. split; [exact Hnd|].
  exact (proj1 (X10_map_distinct_names "map[string]int" Sample.tString
                  Sample.tInt
                  [(Sample.vString "a", Sample.vInt "1");
                   (Sample.vString "b", Sample.vInt "2")] "" emptyProperty
                  eq_refl eq_refl ltac:(done) Hnd)).
Defined.

(** ** X11: the same walk a second time *)

Lemma layered_self (r r2 : property) :
  layered r r r2 → r2 = requiredTwice r.
Proof.
  intros (Hty & Hfmt & Hitems & Hprops & Hreq & Hap1 & Hap2).
  destruct r as [ty fmt items props req ap],
           r2 as [ty2 fmt2 items2 props2 req2 ap2].
  unfold requiredTwice, setRequired. simpl in *. subst.
  f_equal.
  - by destruct (String.eqb ty "").
  - by destruct (String.eqb fmt "").
  - by destruct items.
  - by destruct props.
  - destruct ap, ap2; try done; [by apply Hap1|].
    by destruct Hap2.
Qed.

Lemma setDefaultSchema_set (d : Document) :
  Schema (setDefaultSchema d) ≠ "" ∧
  root (setDefaultSchema d) = root d ∧
  setDefaultSchema (setDefaultSchema d) = setDefaultSchema d.
Proof.
  unfold setDefaultSchema.
  destruct (String.eqb (Schema d) "") eqn:He; simpl.
  - done.
  - rewrite He. by apply String.eqb_neq in He.
Qed.

Lemma Read_eq (v : reflect.Value) (t : reflect.rtype) (d : Document) :
  reflect.Value_Type v = Ok t →
  Read (Some v) d =
    r ← read t "" (root d); Ok (mkDocument (Schema (setDefaultSchema d)) r).
Proof.
  intros Ht. unfold Read.
  destruct (setDefaultSchema_set d) as (_ & -> & _).
  change (reflect.ValueOf (Some v)) with v. by rewrite Ht.
Qed.

Lemma ReadDeep_eq (v : reflect.Value) (d : Document) :
  ReadDeep (Some v) d =
    r ← readDeep v "" (root d);
    Ok (mkDocument (Schema (setDefaultSchema d)) r).
Proof.
  unfold ReadDeep. by destruct (setDefaultSchema_set d) as (_ & -> & _).
Qed.

Lemma setDefaultSchema_keep (schema : string) (r : property) :
  schema ≠ "" →
  setDefaultSchema (mkDocument schema r) = mkDocument schema r.
Proof.
  intros Hs. apply String.eqb_neq in Hs.
  unfold setDefaultSchema. simpl. by rewrite Hs.
Qed.

(** X11: the shallow walk of a type on the node that the same walk has
    made from a fresh node changes one thing: the required names are
    listed twice.  Type, format, items, properties and
    [AdditionalProperties] stay as they were.  So does a second [Read] of
    the same value on a document. *)
Theorem X11_read_again (t : reflect.rtype) (opts : tagOptions) :
  (∃ r, read t opts emptyProperty = Ok r ∧
        read t opts r = Ok (requiredTwice r)) ∧
  (∀ v schema, reflect.Value_Type v = Ok t →
     ∃ d, Read (Some v) (NewDocument schema) = Ok d ∧
          Read (Some v) d = Ok (mkDocument (Schema d) (requiredTwice (root d)))).
Proof.
  assert (∀ opts, ∃ r, read t opts emptyProperty = Ok r ∧
                       read t opts r = Ok (requiredTwice r)) as Hnode.
  { intros o. destruct (read_total t o emptyProperty) as [r Hr].
    exists r. split; [done|].
    destruct (read_layered t o r) as (r2 & fresh & Hr2 & Hfresh & Hlay).
    rewrite Hr in Hfresh. injection Hfresh as <-.
    by rewrite Hr2, (layered_self r r2 Hlay). }
  split; [apply Hnode|].
  intros v schema Ht. destruct (Hnode "") as (r & Hr & Hr2).
  destruct (setDefaultSchema_set (NewDocument schema)) as (Hs & _ & _).
  exists (mkDocument (Schema (setDefaultSchema (NewDocument schema))) r).
  rewrite !(Read_eq v t) by done.
  change (root (NewDocument schema)) with emptyProperty.
  rewrite Hr. split; [done|].
  rewrite setDefaultSchema_keep by done.
  change (root (mkDocument ?s r)) with r. by rewrite Hr2.
Qed.

(** ** X13: the named-type table comes first *)

(** X13: a type whose text is "time.Time" gets the type "string" and the
    format "date-time" and is not walked, whatever its kind, its fields or
    its elements are: both walks leave items, properties, required names
    and [AdditionalProperties] of the node as they were.  The tag options
    play no part. *)
Theorem X13_named_type_first (t : reflect.rtype) (opts : tagOptions)
    (p : property) :
  reflect.Type_String t = "time.Time" →
  getTypeFromMapping t = ("string", "date-time", reflect.String) ∧
  read t opts p =
    Ok (Property "string" "date-time" (Items p) (Properties p) (Required p)
          (AdditionalProperties p)) ∧
  ∀ v, reflect.Value_Type v = Ok t →
    readDeep v opts p =
      Ok (Property "string" "date-time" (Items p) (Properties p) (Required p)
            (AdditionalProperties p)).
Proof.
  intros Hname. split; [by apply getTypeFromMapping_listed|]. split.
  - by rewrite read_eq, getTypeFromMapping_listed.
  - intros v Ht. rewrite readDeep_eq.
    destruct v; try done; simpl in Ht; injection Ht as <-; simpl;
      by rewrite (getTypeFromMapping_listed _ Hname).
Qed.

Lemma X13_named_type_first_witness :
  reflect.Type_String (reflect.TStruct "time.Time" [Sample.fieldA])
    = "time.Time" ∧
  getTypeFromMapping (reflect.TStruct "time.Time" [Sample.fieldA])
    = ("string", "date-time", reflect.String) ∧
  read (reflect.TStruct "time.Time" [Sample.fieldA]) "" emptyProperty =
    Ok (Property "string" "date-time" None None [] false).
Proof.
  split; [done|].
  destruct (X13_named_type_first
              (reflect.TStruct "time.Time" [Sample.fieldA]) "" emptyProperty
              eq_refl) as (Hg & Hr & _).
  by split.
Defined.

(** ** X14: the dialect of a document that has been read *)



(** ** X15: containers of elements without a type string *)

(** X15: when the element type of a slice or map type has a kind outside
    [kindMapping] (a pointer, an interface, an array, a function, a
    channel, a complex number) and no entry in the named-type table, the
    shallow walk does not describe the elements: a slice type gets the
    type "array" and no items, a map type gets the type "object" with
    [AdditionalProperties] set and no properties; the deep walk of a slice
    without elements does as the shallow walk.  Such an element type,
    unless it is a pointer, leaves a node as it is. *)
Theorem X15_untyped_elements (name : string) (key elem : reflect.rtype)
    (opts : tagOptions) (p : property) :
  formatMapping !! name = None →
  formatMapping !! reflect.Type_String elem = None →
  kindMapping (reflect.Type_Kind elem) = None →
  read (reflect.TSlice name elem) opts p =
    Ok (Property "array" (Format p) (Items p) (Properties p) (Required p)
          (AdditionalProperties p)) ∧
  readDeep (reflect.VSlice name elem []) opts p =
    Ok (Property "array" (Format p) (Items p) (Properties p) (Required p)
          (AdditionalProperties p)) ∧
  read (reflect.TMap name key elem) opts p =
    Ok (Property "object" (Format p) (Items p) (Properties p) (Required p)
          true) ∧
  (reflect.Type_Kind elem ≠ reflect.Ptr → read elem opts p = Ok p).
Proof.
  intros Hname Helem Hkind.
  pose proof (getTypeFromMapping_unlisted elem Helem) as Hg.
  rewrite Hkind in Hg. simpl in Hg.
  assert (reflect.Type_Kind elem ≠ reflect.Uint8) as Hbyte
    by (intros Hk; by rewrite Hk in Hkind).
  split; [|split; [|split]].
  - rewrite read_eq, getTypeFromMapping_unlisted by done. simpl.
    unfold readFromSlice, readFromSlice_body. simpl. rewrite Hg.
    by rewrite bool_decide_eq_false_2.
  - rewrite readDeep_eq. simpl.
    rewrite getTypeFromMapping_unlisted by done. simpl.
    unfold readFromSliceDeep, readFromSliceDeep_body. simpl. rewrite Hg.
    by rewrite bool_decide_eq_false_2.
  - rewrite read_eq, getTypeFromMapping_unlisted by done. simpl.
    unfold readFromMap. simpl. by rewrite Hg.
  - intros Hptr. rewrite read_eq, Hg.
    destruct (reflect.Type_Kind elem); try done.
Qed.

Lemma X15_untyped_elements_witness :
  formatMapping !! "[]*main.AB" = None ∧
  formatMapping !! reflect.Type_String (reflect.PtrTo Sample.tAB) = None ∧
  kindMapping (reflect.Type_Kind (reflect.PtrTo Sample.tAB)) = None ∧
  read (reflect.TSlice "[]*main.AB" (reflect.PtrTo Sample.tAB)) ""
       emptyProperty =
    Ok (Property "array" "" None None [] false) ∧
  read (reflect.TMap "[]*main.AB" Sample.tString (reflect.PtrTo Sample.tAB))
       "" emptyProperty =
    Ok (Property "object" "" None None [] true).
Proof.
  split; [done|]. split; [done|]. split; [done|].
  destruct (X15_untyped_elements "[]*main.AB" Sample.tString
              (reflect.PtrTo Sample.tAB) "" emptyProperty
              eq_refl eq_refl eq_refl) as (Hslice & _ & Hmap & _).
  by split.
Defined.

(** ** X16: the deep walk of a slice reads its first element only *)

(** X16: the deep walk of a slice value with elements takes the items
    from the first element alone: when the type of that element is not of
    kind [Uint8], the node gets the type "array" and, as items, the node
    inferred from the first element; the other elements and the declared
    element type are not consulted. *)
Theorem X16_first_element_only (name : string) (t : reflect.rtype)
    (x : reflect.Value) (opts : tagOptions) (p : property) :
  formatMapping !! name = None →
  reflect.Value_Type x = Ok t →
  (getTypeFromMapping t).2 ≠ reflect.Uint8 →
  wfValue x = true →
  readDeep x "" emptyProperty = Ok (entryNode x) ∧
  ∀ elem rest,
    readDeep (reflect.VSlice name elem (x :: rest)) opts p =
      Ok (Property "array" (Format p) (Some (entryNode x)) (Properties p)
            (Required p) (AdditionalProperties p)).
Proof.
  intros Hname Ht Hkind Hwf.
  destruct (readDeep_total x Hwf "" emptyProperty) as [items Hitems].
  assert (entryNode x = items) as ->
    by (unfold entryNode; by rewrite Hitems).
  split; [done|]. intros elem rest.
  rewrite readDeep_eq. simpl.
  rewrite getTypeFromMapping_unlisted by done. simpl.
  unfold readFromSliceDeep, readFromSliceDeep_body. simpl.
  rewrite Ht. simpl.
  destruct (getTypeFromMapping t) as [[jsType format] kind]. simpl in Hkind.
  rewrite bool_decide_eq_false_2 by done.
  by rewrite Hitems.
Qed.

Lemma X16_first_element_only_witness :
  formatMapping !! "[]main.AB" = None ∧
  reflect.Value_Type Sample.vAB = Ok Sample.tAB ∧
  (getTypeFromMapping Sample.tAB).2 ≠ reflect.Uint8 ∧
  wfValue Sample.vAB = true ∧
  readDeep (reflect.VSlice "[]main.AB" Sample.tAB
              [Sample.vAB; Sample.vAB]) "" emptyProperty =
    Ok (Property "array" "" (Some (entryNode Sample.vAB)) None [] false).
Proof.
  split; [done|]. split; [done|]. split; [done|]. split; [done|].
  destruct (X16_first_element_only "[]main.AB" Sample.tAB Sample.vAB ""
              emptyProperty eq_refl eq_refl ltac:(done) eq_refl)
    as [_ Hslice].
  apply Hslice.
Defined.

(** * Two walks of one value *)

Lemma reordered_refl (v : reflect.Value) : reordered v v.
Proof.
  induction v as [|name b data|name dyn IH|name|name e|name e xs IH
                 |name e xs IH|name k e entries IH|name e pointee IH
                 |name fields IH] using Value_nested_ind;
    try by constructor.
  - constructor. induction IH; by constructor.
  - constructor. induction IH; by constructor.
  - apply (reordered_map _ _ _ entries entries); [|done].
    induction IH as [|kv entries [_ Hv] _ IHl]; by constructor.
  - constructor. induction IH; by constructor.
Qed.

Lemma reordered_fields
    (fields fields' : list (reflect.StructField * reflect.Value)) :
  Forall2 (λ fv fv', fv.1 = fv'.1 ∧ reordered fv.2 fv'.2) fields fields' →
  fields'.*1 = fields.*1.
Proof.
  induction 1 as [|fv fv' fields fields' [Hf _] _ IH]; [done|].
  by rewrite !fmap_cons, IH, Hf.
Qed.

(** The other walk meets a value of the same type. *)
Lemma reordered_Type (v v' : reflect.Value) :
  reordered v v' → reflect.Value_Type v' = reflect.Value_Type v.
Proof.
  destruct 1 as [| | | | |name e xs xs' Hxs| | | |name fs fs' Hfs]; simpl;
    try done.
  - by rewrite (Forall2_length _ _ _ Hxs).
  - by rewrite (reordered_fields _ _ Hfs).
Qed.

Lemma readEntries_nodes (entries : list (reflect.Value * reflect.Value)) :
  Forall (λ kv, readDeep kv.2 "" emptyProperty = Ok (entryNode kv.2))
         entries →
  ∀ m0, foldM (readEntryDeep readDeep) entries m0
        = Ok (entriesAfter entries m0).
Proof.
  induction 1 as [|[key value] entries Hchild _ IH]; intros m0; [done|].
  change (entriesAfter ((key, value) :: entries) m0)
    with (entriesAfter entries (<[keyName key := entryNode value]> m0)).
  rewrite <-IH. simpl in *.
  rewrite mapKeyToString_unwrapKey. simpl. by rewrite Hchild.
Qed.

Lemma readEntries_reordered
    (entries mid entries' : list (reflect.Value * reflect.Value)) :
  Forall (λ kv, readDeep kv.2 "" emptyProperty = Ok (entryNode kv.2))
         entries →
  NoDup (keyName <$> entries.*1) →
  Forall2 (λ kv kv', kv.1 = kv'.1 ∧
                     readDeep kv'.2 "" emptyProperty
                     = readDeep kv.2 "" emptyProperty) entries mid →
  mid ≡ₚ entries' →
  foldM (readEntryDeep readDeep) entries' ∅
  = foldM (readEntryDeep readDeep) entries ∅.
Proof.
  intros Hnodes Hnd Hmid Hperm.
  assert ((λ kv, (keyName kv.1, entryNode kv.2)) <$> mid
          = (λ kv, (keyName kv.1, entryNode kv.2)) <$> entries
          ∧ Forall (λ kv, readDeep kv.2 "" emptyProperty
                          = Ok (entryNode kv.2)) mid) as [Hpairs Hnodes'].
  { clear Hnd Hperm.
    induction Hmid as [|[k x] [k' x'] entries mid [Hk Hx] _ IH]; [done|].
    apply Forall_cons_1 in Hnodes as [Hnode Hnodes].
    destruct (IH Hnodes) as [IHp IHn]. simpl in Hk, Hx, Hnode. subst k'.
    assert (entryNode x' = entryNode x) as Hnode'
      by (unfold entryNode; by rewrite Hx).
    split.
    - rewrite !fmap_cons, IHp. simpl. by rewrite Hnode'.
    - constructor; [|done]. simpl. by rewrite Hnode', Hx. }
  assert (NoDup (keyName <$> entries'.*1)) as Hnd'.
  { rewrite <-Hperm, <-entryNames_fst, Hpairs. by rewrite entryNames_fst. }
  rewrite (readEntries_nodes entries Hnodes).
  rewrite (readEntries_nodes entries') by by rewrite <-Hperm.
  rewrite !entriesAfter_distinct by done. f_equal. f_equal.
  rewrite <-Hpairs. apply list_to_map_proper.
  - by rewrite entryNames_fst.
  - by rewrite Hperm.
Qed.

Lemma readFieldsDeep_reordered
    (fields fields' : list (reflect.StructField * reflect.Value)) :
  Forall2 (λ fv fv', fv.1 = fv'.1 ∧
                     ∀ opts q, readDeep fv'.2 opts q = readDeep fv.2 opts q)
          fields fields' →
  ∀ p, foldM (readFieldDeep readDeep) fields' p
       = foldM (readFieldDeep readDeep) fields p.
Proof.
  induction 1 as [|[f x] [f' x'] fields fields' [Hf Hx] _ IH]; intros p;
    [done|].
  simpl in Hf, Hx. subst f'.
  change (readFieldDeep readDeep p (f, x')
            ≫= foldM (readFieldDeep readDeep) fields'
          = readFieldDeep readDeep p (f, x)
              ≫= foldM (readFieldDeep readDeep) fields).
  rewrite !readFieldDeep_as_readField.
  rewrite (readField_ext (λ _ opts q, readDeep x' opts q)
                         (λ _ opts q, readDeep x opts q) p f)
    by (intros; apply Hx).
  destruct (readField _ p f); simpl; [apply IH|done].
Qed.

(** When the keys of every map in a value get distinct names, the deep
    walk gives the same result for every order of the iteration over the
    maps. *)
Lemma readDeep_reordered (v : reflect.Value) :
  wfValue v = true → distinctNames v = true →
  ∀ v', reordered v v' →
  ∀ opts p, readDeep v' opts p = readDeep v opts p.
Proof.
  induction v as [|name b data|name dyn IH|name|name e|name e xs IH
                 |name e xs IH|name k e entries IH|name e pointee IH
                 |name fields IH] using Value_nested_ind;
    intros Hwf Hdist v' Hre opts p;
    pose proof (reordered_Type _ _ Hre) as Hty;
    inversion Hre as [| |? ? dyn' Hdyn| | |? ? ? xs' Hxs|? ? ? xs' Hxs
                     |? ? ? ? mid entries' Hmid Hperm|? ? ? pointee' Hp
                     |? ? fields' Hfs]; subst; try done;
    rewrite !readDeep_eq; simpl; simpl in Hty;
    try (injection Hty as Hty'; rewrite Hty');
    (gtfm_split; [done|]).
  - by apply IH.
  - unfold readFromSliceDeep_body. simpl.
    destruct Hxs as [|x x' xs xs' Hx Hxs]; [done|]. simpl.
    simpl in Hwf, Hdist.
    apply andb_prop in Hwf as [Hwfx _]. apply andb_prop in Hwfx as [_ Hwfx].
    apply andb_prop in Hdist as [Hdx _].
    apply Forall_cons_1 in IH as [IHx _].
    rewrite (reordered_Type _ _ Hx).
    destruct (reflect.Value_Type x) as [t|]; [|done]. simpl.
    destruct (getTypeFromMapping t) as [[jsType format] kind].
    case_bool_decide; [done|].
    by rewrite (IHx Hwfx Hdx x' Hx).
  - unfold readFromMapDeep_body. simpl.
    simpl in Hwf, Hdist. apply andb_prop in Hdist as [Hnd Hdist].
    apply bool_decide_eq_true in Hnd.
    rewrite forallb_forall in Hwf. rewrite forallb_forall in Hdist.
    rewrite (readEntries_reordered entries mid entries'); [done| |done| |done].
    + apply Forall_forall. intros [key x] Hin. simpl.
      apply list_elem_of_In, Hwf in Hin. apply andb_prop in Hin as [_ Hx].
      unfold entryNode.
      by destruct (readDeep_total x Hx "" emptyProperty) as [child ->].
    + clear Hperm Hre Hnd.
      induction Hmid as [|[key x] [key' x'] entries mid [Hk Hx] _ IHl];
        [done|].
      apply Forall_cons_1 in IH as [[_ IHx] IH]. constructor.
      * split; [done|]. simpl in *.
        apply IHx; [|apply (Hdist (key, x)); by left|done].
        specialize (Hwf (key, x) ltac:(by left)).
        by apply andb_prop in Hwf as [_ ?].
      * apply IHl; [done| |].
        -- intros kv Hin. apply Hwf. by right.
        -- intros kv Hin. apply Hdist. by right.
  - by apply IH.
  - unfold readFromStructDeep_body. simpl.
    apply readFieldsDeep_reordered.
    simpl in Hwf, Hdist.
    rewrite forallb_forall in Hwf. rewrite forallb_forall in Hdist.
    clear Hre Hg Hty' opts p.
    induction Hfs as [|[f x] [f' x'] fields fields' [Hf Hx] _ IHl]; [done|].
    apply Forall_cons_1 in IH as [IHx IH]. constructor.
    + split; [done|]. intros o q. simpl in *.
      apply IHx; [|apply (Hdist (f, x)); by left|done].
      specialize (Hwf (f, x) ltac:(by left)).
      by apply andb_prop in Hwf as [_ ?].
    + apply IHl; [done| |].
      * intros fv Hin. apply Hwf. by right.
      * intros fv Hin. apply Hdist. by right.
Qed.

(** * A walk on a node that is not fresh, exactly *)

Lemma overlay_setTypeFormat jsType format p :
  setTypeFormat jsType format p
  = overlay false p (setTypeFormat jsType format emptyProperty).
Proof.
  destruct p as [ty fmt items props req ap].
  unfold overlay, setTypeFormat.
  destruct (String.eqb_spec jsType "") as [->|Hj],
           (String.eqb_spec format "") as [->|Hf]; simpl;
    rewrite ?(right_id_L [] (++));
    repeat match goal with
           | H : ?s ≠ "" |- context [String.eqb ?s ""] =>
               rewrite (proj2 (String.eqb_neq s "") H)
           end;
    done.
Qed.

Section overlay_steps.
Variables (struct : bool) (old fresh r : property).
Hypothesis Hr : r = overlay struct old fresh.

Lemma overlay_setType s :
  s ≠ "" → setType s r = overlay struct old (setType s fresh).
Proof.
  intros Hs. apply String.eqb_neq in Hs. subst r.
  unfold overlay, setType. simpl. by rewrite Hs.
Qed.

Lemma overlay_setItems items :
  setItems (Some items) r = overlay struct old (setItems (Some items) fresh).
Proof. by subst r. Qed.

Lemma overlay_setProperties m :
  setProperties (Some m) r
  = overlay struct old (setProperties (Some m) fresh).
Proof. by subst r. Qed.

Lemma overlay_struct m members :
  Property "object" (Format r) (Items r) (Some m)
           (requiredAfter members (Required r)) false
  = overlay true old
      (Property "object" (Format fresh) (Items fresh) (Some m)
                (requiredAfter members (Required fresh)) false).
Proof.
  subst r. unfold overlay, requiredAfter. simpl.
  by rewrite (assoc_L (++)).
Qed.

End overlay_steps.

Lemma overlay_setAdditionalProperties (old fresh r : property) :
  r = overlay false old fresh →
  setAdditionalProperties true r
  = overlay false old (setAdditionalProperties true fresh).
Proof. by intros ->. Qed.

(** The shallow walk on any node is the overlay of the same walk on a
    fresh node. *)
Lemma read_overlay (t : reflect.rtype) :
  ∀ opts p, ∃ fresh,
    read t opts emptyProperty = Ok fresh ∧
    read t opts p = Ok (overlay (walkedAsStruct t) p fresh).
Proof.
  induction t as [name b|name|name|name e ?|name n e ?|name e ?
                 |name k ? e ?|name e IH|name fields];
    intros opts p; rewrite !read_eq; simpl walkedAsStruct;
    (destruct (formatMapping !! name) as [fm|] eqn:Hn;
     [unfold getTypeFromMapping; simpl; rewrite Hn; simpl;
      eexists; (split; [done|]); apply f_equal, overlay_setTypeFormat
     |rewrite !getTypeFromMapping_unlisted by done; simpl]).
  - destruct b; simpl; eexists; (split; [done|]);
      apply f_equal, overlay_setTypeFormat.
  - eexists. split; [done|]. apply f_equal, overlay_setTypeFormat.
  - eexists. split; [done|]. apply f_equal, overlay_setTypeFormat.
  - eexists. split; [done|]. apply f_equal, overlay_setTypeFormat.
  - eexists. split; [done|]. apply f_equal, overlay_setTypeFormat.
  - unfold readFromSlice_body. simpl.
    destruct (getTypeFromMapping e) as [[jsType format] kind].
    case_bool_decide.
    { eexists. split; [done|]. apply f_equal.
      apply overlay_setType; [apply overlay_setTypeFormat|done]. }
    destruct (String.eqb jsType ""); simpl.
    { eexists. split; [done|]. apply f_equal, overlay_setTypeFormat. }
    destruct (read_total e "" emptyProperty) as [items ->]. simpl.
    eexists. split; [done|]. apply f_equal.
    apply overlay_setItems, overlay_setTypeFormat.
  - unfold readFromMap. simpl.
    destruct (getTypeFromMapping e) as [[jsType format] kind].
    destruct (String.eqb jsType ""); simpl;
      eexists; (split; [done|]); apply f_equal.
    + apply overlay_setAdditionalProperties, overlay_setTypeFormat.
    + apply overlay_setProperties, overlay_setTypeFormat.
  - apply IH.
  - change (readFromStruct_body read) with readFromStruct.
    rewrite !readFromStruct_closed_form.
    eexists. split; [done|]. apply f_equal.
    eapply overlay_struct, overlay_setTypeFormat.
Qed.

(** The deep walk on any node is the overlay of the same walk on a fresh
    node. *)
Lemma readDeep_overlay (v : reflect.Value) :
  wfValue v = true →
  ∀ opts p, ∃ fresh,
    readDeep v opts emptyProperty = Ok fresh ∧
    readDeep v opts p = Ok (overlay (walkedAsStructDeep v) p fresh).
Proof.
  induction v as [|name b data|name dyn IH|name|name e|name e xs
                 |name e xs|name k e entries|name e pointee IH|name fields];
    intros Hwf opts p; rewrite !readDeep_eq; simpl.
  { eexists. split; [done|]. apply f_equal.
    apply overlay_setType; [apply (overlay_setTypeFormat "" "")|done]. }
  all: destruct (formatMapping !! name) as [fm|] eqn:Hn;
    [unfold getTypeFromMapping; simpl; rewrite Hn; simpl;
     eexists; (split; [done|]); apply f_equal, overlay_setTypeFormat
    |rewrite !getTypeFromMapping_unlisted by done; simpl].
  - destruct b; simpl; eexists; (split; [done|]);
      apply f_equal, overlay_setTypeFormat.
  - by apply IH.
  - eexists. split; [done|]. apply f_equal, overlay_setTypeFormat.
  - eexists. split; [done|]. apply f_equal, overlay_setTypeFormat.
  - eexists. split; [done|]. apply f_equal, overlay_setTypeFormat.
  - unfold readFromSliceDeep_body. simpl.
    destruct xs as [|x xs]; simpl.
    + destruct (getTypeFromMapping e) as [[jsType format] kind].
      case_bool_decide.
      { eexists. split; [done|]. apply f_equal.
        apply overlay_setType; [apply overlay_setTypeFormat|done]. }
      destruct (String.eqb jsType ""); simpl.
      { eexists. split; [done|]. apply f_equal, overlay_setTypeFormat. }
      destruct (read_total e "" emptyProperty) as [items ->]. simpl.
      eexists. split; [done|]. apply f_equal.
      apply overlay_setItems, overlay_setTypeFormat.
    + simpl in Hwf. apply andb_prop in Hwf as [Hx _].
      apply andb_prop in Hx as [Hvalid Hwfx].
      destruct (Value_Type_valid x Hvalid) as [t ->]. simpl.
      destruct (getTypeFromMapping t) as [[jsType format] kind].
      case_bool_decide.
      { eexists. split; [done|]. apply f_equal.
        apply overlay_setType; [apply overlay_setTypeFormat|done]. }
      destruct (readDeep_total x Hwfx "" emptyProperty) as [items ->]. simpl.
      eexists. split; [done|]. apply f_equal.
      apply overlay_setItems, overlay_setTypeFormat.
  - unfold readFromMapDeep_body. simpl.
    destruct (readEntries_total entries Hwf ∅) as [m' ->]. simpl.
    destruct (Nat.ltb 0 (size m'));
      eexists; (split; [done|]); apply f_equal.
    + apply overlay_setProperties, overlay_setTypeFormat.
    + apply overlay_setTypeFormat.
  - by apply IH.
  - change (readFromStructDeep_body readDeep) with readFromStructDeep.
    rewrite !readFromStructDeep_closed_form by done.
    eexists. split; [done|]. apply f_equal.
    eapply overlay_struct, overlay_setTypeFormat.
Qed.

Lemma overlay_fresh (struct : bool) (old fresh : property) :
  fresh = overlay struct emptyProperty fresh →
  Format old = "" → Items old = None → Properties old = None →
  Required old = [] → AdditionalProperties old = false →
  Type_ fresh ≠ "" →
  overlay struct old fresh = fresh.
Proof.
  destruct old as [ty fmt items props req ap],
           fresh as [ty' fmt' items' props' req' ap'].
  unfold overlay. simpl. intros Hfresh -> -> -> -> -> Ht.
  apply (f_equal AdditionalProperties) in Hfresh. simpl in Hfresh.
  apply String.eqb_neq in Ht. rewrite Ht. f_equal.
  - by destruct (String.eqb_spec fmt' "").
  - by destruct items'.
  - by destruct props'.
  - destruct struct; [done|]. by rewrite orb_false_r.
Qed.

Lemma overlay_fresh_struct (old fresh : property) :
  Type_ fresh ≠ "" → is_Some (Properties fresh) →
  AdditionalProperties fresh = false →
  Format old = "" → Items old = None → Required old = [] →
  overlay true old fresh = fresh.
Proof.
  destruct old as [ty fmt items props req ap],
           fresh as [ty' fmt' items' props' req' ap'].
  unfold overlay. simpl. intros Ht [m ->] -> -> -> ->.
  apply String.eqb_neq in Ht. rewrite Ht. f_equal.
  - by destruct (String.eqb_spec fmt' "").
  - by destruct items'.
Qed.

(** What the struct walker leaves on a fresh node. *)
Lemma read_struct_node (t : reflect.rtype) :
  walkedAsStruct t = true →
  ∀ opts fresh, read t opts emptyProperty = Ok fresh →
  Type_ fresh = "object" ∧ is_Some (Properties fresh) ∧
  AdditionalProperties fresh = false.
Proof.
  induction t as [name b|name|name|name e ?|name n e ?|name e ?
                 |name k ? e ?|name e IH|name fields];
    try done; simpl; intros Hs opts fresh;
    destruct (formatMapping !! name) eqn:Hn; try done.
  - rewrite read_pointer by done. by apply IH.
  - rewrite read_eq, getTypeFromMapping_unlisted by done. simpl.
    change (readFromStruct_body read) with readFromStruct.
    rewrite readFromStruct_closed_form. intros [= <-]. simpl. eauto.
Qed.

Lemma readDeep_struct_node (v : reflect.Value) :
  wfValue v = true → walkedAsStructDeep v = true →
  ∀ opts fresh, readDeep v opts emptyProperty = Ok fresh →
  Type_ fresh = "object" ∧ is_Some (Properties fresh) ∧
  AdditionalProperties fresh = false.
Proof.
  induction v as [|name b data|name dyn IH|name|name e|name e xs
                 |name e xs|name k e entries|name e pointee IH|name fields];
    try done; simpl; intros Hwf Hs opts fresh;
    destruct (formatMapping !! name) eqn:Hn; try done.
  - rewrite readDeep_eq. simpl.
    rewrite getTypeFromMapping_unlisted by done. simpl. by apply IH.
  - rewrite readDeep_pointer by done. by apply IH.
  - rewrite readDeep_eq. simpl.
    rewrite getTypeFromMapping_unlisted by done. simpl.
    change (readFromStructDeep_body readDeep) with readFromStructDeep.
    rewrite readFromStructDeep_closed_form by done.
    intros [= <-]. simpl. eauto.
Qed.

Lemma ReadDeep_unfold (variable : option reflect.Value) (d : Document) :
  ReadDeep variable d =
    r ← readDeep (reflect.ValueOf variable) "" (root d);
    Ok (mkDocument (Schema (setDefaultSchema d)) r).
Proof.
  unfold ReadDeep. by destruct (setDefaultSchema_set d) as (_ & -> & _).
Qed.

(** * The claims on pointers and on a second call *)

(** ** C4: a pointer to a struct *)

(** C4, as stated, fails in deep mode: a pointer to a struct may be nil,
    and on the nil pointer of type [*AB] the deep walk finds the zero Value
    behind the pointer and gives the node of type "null", where the struct
    [AB{}] and the pointer type [*AB] in shallow mode give the node of type
    "object" with the properties A and B. *)
Lemma C4_nil_pointer_counterexample :
  readDeep (reflect.VPtr "*main.AB" Sample.tAB reflect.VZero) ""
           emptyProperty =
    Ok (Property "null" "" None None [] false) ∧
  readDeep Sample.vAB "" emptyProperty =
    Ok (Property "object" "" None
          (Some {[ "A" := Property "boolean" "" None None [] false;
                   "B" := Property "string" "" None None [] false ]})
          ["A"] false) ∧
  read (reflect.PtrTo Sample.tAB) "" emptyProperty =
    readDeep Sample.vAB "" emptyProperty ∧
  ReadDeep (Some (reflect.VPtr "*main.AB" Sample.tAB reflect.VZero))
           (NewDocument "") ≠
    ReadDeep (Some Sample.vAB) (NewDocument "").
Proof. repeat split; by vm_compute. Qed.

(** C4 (amended): for every struct type, the shallow walk of the pointer
    type to it gives the outcome of the walk of the struct type itself, on
    the same node and with the same tag options; in deep mode the walk of
    a pointer that is not nil gives the outcome of the walk of the struct
    value it points to; and so the two entry points leave the same document
    for such a pointer as for the struct.  The deep walk of the nil pointer
    to the struct type sets the type "null" and nothing else, which is
    never the outcome for the struct.  The deep outcomes are equal for one
    and the same order of iteration over the maps in the struct, and for
    any two orders when the keys of every map in it get distinct names. *)
Theorem C4_pointer_to_struct (name : string)
    (tfields : list reflect.StructField)
    (vfields : list (reflect.StructField * reflect.Value))
    (opts : tagOptions) (p : property) (d : Document) :
  read (reflect.PtrTo (reflect.TStruct name tfields)) opts p =
    read (reflect.TStruct name tfields) opts p ∧
  readDeep (reflect.VPtr ("*" +:+ name) (reflect.TStruct name vfields.*1)
              (reflect.VStruct name vfields)) opts p =
    readDeep (reflect.VStruct name vfields) opts p ∧
  Read (Some (reflect.VPtr ("*" +:+ name) (reflect.TStruct name vfields.*1)
                (reflect.VStruct name vfields))) d =
    Read (Some (reflect.VStruct name vfields)) d ∧
  ReadDeep (Some (reflect.VPtr ("*" +:+ name) (reflect.TStruct name vfields.*1)
                    (reflect.VStruct name vfields))) d =
    ReadDeep (Some (reflect.VStruct name vfields)) d ∧
  readDeep (reflect.VPtr ("*" +:+ name) (reflect.TStruct name tfields)
              reflect.VZero) opts p =
    Ok (setType "null" p) ∧
  ReadDeep (Some (reflect.VPtr ("*" +:+ name) (reflect.TStruct name tfields)
                    reflect.VZero)) d =
    Ok (mkDocument (Schema (setDefaultSchema d)) (setType "null" (root d))) ∧
  readDeep (reflect.VPtr ("*" +:+ name) (reflect.TStruct name tfields)
              reflect.VZero) opts p ≠
    read (reflect.TStruct name tfields) opts p ∧
  (wfValue (reflect.VStruct name vfields) = true →
   readDeep (reflect.VPtr ("*" +:+ name) (reflect.TStruct name vfields.*1)
               reflect.VZero) opts p ≠
     readDeep (reflect.VStruct name vfields) opts p) ∧
  (wfValue (reflect.VStruct name vfields) = true →
   distinctNames (reflect.VStruct name vfields) = true →
   ∀ v', reordered (reflect.VStruct name vfields) v' →
     readDeep (reflect.VPtr ("*" +:+ name) (reflect.TStruct name vfields.*1)
                 v') opts p =
       readDeep (reflect.VStruct name vfields) opts p).
Proof.
  assert (∀ fields o q,
            readDeep (reflect.VPtr ("*" +:+ name)
                        (reflect.TStruct name fields) reflect.VZero) o q
            = Ok (setType "null" q)) as Hnil.
  { intros fields o q. rewrite readDeep_pointer by apply formatMapping_star.
    by rewrite readDeep_eq. }
  split; [|split; [|split; [|split; [|split; [|split; [|split; [|split]]]]]]].
  - apply read_pointer, formatMapping_star.
  - apply readDeep_pointer, formatMapping_star.
  - unfold Read. simpl. by rewrite read_pointer by apply formatMapping_star.
  - unfold ReadDeep. simpl.
    by rewrite readDeep_pointer by apply formatMapping_star.
  - apply Hnil.
  - rewrite ReadDeep_unfold. simpl reflect.ValueOf. by rewrite Hnil.
  - rewrite Hnil, read_eq.
    destruct (formatMapping !! name) as [fm|] eqn:Hn.
    + rewrite formatMapping_lookup in Hn. case_decide; [|done].
      injection Hn as <-. rewrite getTypeFromMapping_listed by done.
      simpl. by intros [=].
    + rewrite getTypeFromMapping_unlisted by done. simpl.
      change (readFromStruct_body read) with readFromStruct.
      rewrite readFromStruct_closed_form. by intros [=].
  - intros Hwf. rewrite Hnil, readDeep_eq. simpl.
    destruct (formatMapping !! name) as [fm|] eqn:Hn.
    + rewrite formatMapping_lookup in Hn. case_decide; [|done].
      injection Hn as <-. rewrite getTypeFromMapping_listed by done.
      simpl. by intros [=].
    + rewrite getTypeFromMapping_unlisted by done. simpl.
      change (readFromStructDeep_body readDeep) with readFromStructDeep.
      rewrite readFromStructDeep_closed_form by done. by intros [=].
  - intros Hwf Hdist v' Hre.
    rewrite readDeep_pointer by apply formatMapping_star.
    by apply readDeep_reordered.
Qed.

(** ** C5: a second inference call on a document *)

(** C5, as stated, fails: after [Read] of a value of
    [struct { A bool; B string `json:",omitempty"` }] and then [Read] of an
    [int] on the same document, the root node has the type "integer" of
    the second input and still has the properties and the required names
    of the first, where a fresh document has the type alone. *)
Lemma C5_leftover_counterexample :
  Read (Some Sample.vAB) (NewDocument "") ≫= Read (Some (Sample.vInt "1")) =
    Ok (mkDocument defaultSchema
          (Property "integer" "" None
             (Some {[ "A" := Property "boolean" "" None None [] false;
                      "B" := Property "string" "" None None [] false ]})
             ["A"] false)) ∧
  Read (Some (Sample.vInt "1")) (NewDocument "") =
    Ok (mkDocument defaultSchema (Property "integer" "" None None [] false)) ∧
  Read (Some Sample.vAB) (NewDocument "") ≫= Read (Some (Sample.vInt "1")) ≠
    Read (Some (Sample.vInt "1")) (NewDocument "").
Proof. repeat split; by vm_compute. Qed.

(** C5 (amended): an inference call on a document that is not new -- any
    document [d1], so in particular one that an earlier call of [Read] or
    of [ReadDeep] has left, on any input -- works on the root node in
    place.  With [fresh] the node that the same call leaves on a new
    document, the root node after the call is [overlay] of the root of
    [d1] and [fresh]: type, format, items and properties are those of
    [fresh] where [fresh] has them and those left in [d1] where it has
    not; the required names of [fresh] follow those left in [d1];
    [AdditionalProperties] is false when the input is walked as a struct
    (a struct, or pointers or interface values leading to one), and is
    otherwise set exactly when [fresh] has it set or [d1] had.  The
    dialect is the one of [d1], the default one if [d1] had none.  The
    root node is [fresh] itself when [d1] has no format, items,
    properties, required names nor [AdditionalProperties] and [fresh] has
    a type, and also when the input is walked as a struct and [d1] has no
    format, items nor required names.  This holds of [ReadDeep] on the nil
    interface and on every value whose parts are valid, and of [Read] on
    every value; the types are those that do not contain themselves.
    [fresh] is the node for the same order of iteration over the maps of
    the input, and for every order when the keys of every map get distinct
    names. *)
Theorem C5_second_call (variable : option reflect.Value) (d1 : Document) :
  (wfValue (reflect.ValueOf variable) = true →
   ∃ fresh,
     ReadDeep variable (NewDocument "") = Ok (mkDocument defaultSchema fresh) ∧
     ReadDeep variable d1 =
       Ok (mkDocument (Schema (setDefaultSchema d1))
             (overlay (walkedAsStructDeep (reflect.ValueOf variable))
                      (root d1) fresh)) ∧
     (Format (root d1) = "" → Items (root d1) = None →
      Properties (root d1) = None → Required (root d1) = [] →
      AdditionalProperties (root d1) = false → Type_ fresh ≠ "" →
      overlay (walkedAsStructDeep (reflect.ValueOf variable)) (root d1) fresh
      = fresh) ∧
     (walkedAsStructDeep (reflect.ValueOf variable) = true →
      Format (root d1) = "" → Items (root d1) = None →
      Required (root d1) = [] →
      overlay true (root d1) fresh = fresh) ∧
     (distinctNames (reflect.ValueOf variable) = true →
      ∀ v', reordered (reflect.ValueOf variable) v' →
        ReadDeep (Some v') (NewDocument "")
        = Ok (mkDocument defaultSchema fresh))) ∧
  (∀ v t, variable = Some v → reflect.Value_Type v = Ok t →
     ∃ fresh,
       Read variable (NewDocument "") = Ok (mkDocument defaultSchema fresh) ∧
       Read variable d1 =
         Ok (mkDocument (Schema (setDefaultSchema d1))
               (overlay (walkedAsStruct t) (root d1) fresh)) ∧
       (Format (root d1) = "" → Items (root d1) = None →
        Properties (root d1) = None → Required (root d1) = [] →
        AdditionalProperties (root d1) = false → Type_ fresh ≠ "" →
        overlay (walkedAsStruct t) (root d1) fresh = fresh) ∧
       (walkedAsStruct t = true →
        Format (root d1) = "" → Items (root d1) = None →
        Required (root d1) = [] →
        overlay true (root d1) fresh = fresh)).
Proof.
  split.
  - intros Hwf.
    destruct (readDeep_overlay _ Hwf "" (root d1)) as (fresh & Hfresh & Hr).
    exists fresh. split; [|split; [|split; [|split]]].
    + rewrite ReadDeep_unfold.
      change (root (NewDocument "")) with emptyProperty. by rewrite Hfresh.
    + rewrite ReadDeep_unfold. by rewrite Hr.
    + apply overlay_fresh.
      destruct (readDeep_overlay _ Hwf "" emptyProperty)
        as (fresh' & Hfresh' & Hr').
      rewrite Hfresh in Hfresh', Hr'. injection Hfresh' as <-.
      by injection Hr'.
    + intros Hs.
      destruct (readDeep_struct_node _ Hwf Hs "" fresh Hfresh)
        as (Hty & Hprops & Hap).
      apply overlay_fresh_struct; [by rewrite Hty|done..].
    + intros Hdist v' Hre. rewrite ReadDeep_unfold.
      change (root (NewDocument "")) with emptyProperty.
      simpl reflect.ValueOf.
      by rewrite (readDeep_reordered _ Hwf Hdist v' Hre), Hfresh.
  - intros v t -> Ht.
    destruct (read_overlay t "" (root d1)) as (fresh & Hfresh & Hr).
    exists fresh. split; [|split; [|split]].
    + rewrite (Read_eq v t) by done.
      change (root (NewDocument "")) with emptyProperty. by rewrite Hfresh.
    + rewrite (Read_eq v t) by done. by rewrite Hr.
    + apply overlay_fresh.
      destruct (read_overlay t "" emptyProperty) as (fresh' & Hfresh' & Hr').
      rewrite Hfresh in Hfresh', Hr'. injection Hfresh' as <-.
      by injection Hr'.
    + intros Hs.
      destruct (read_struct_node _ Hs "" fresh Hfresh) as (Hty & Hprops & Hap).
      apply overlay_fresh_struct; [by rewrite Hty|done..].
Qed.

Lemma C5_second_call_witness :
  wfValue (reflect.ValueOf (Some Sample.vAB)) = true ∧
  ∃ fresh,
    ReadDeep (Some Sample.vAB) (NewDocument "")
    = Ok (mkDocument defaultSchema fresh) ∧
    ReadDeep (Some Sample.vAB)
             (mkDocument defaultSchema
                (Property "object" "" None None [] true))
    = Ok (mkDocument defaultSchema fresh).
Proof.
  split; [reflexivity|].
  destruct (C5_second_call (Some Sample.vAB)
              (mkDocument defaultSchema
                 (Property "object" "" None None [] true)))
    as [Hdeep _].
  destruct (Hdeep eq_refl) as (fresh & Hfresh & Hsecond & _ & Hstruct & _).
  exists fresh. split; [exact Hfresh|].
  rewrite Hsecond. apply f_equal.
  exact (f_equal (mkDocument defaultSchema)
           (Hstruct eq_refl eq_refl eq_refl eq_refl)).
Defined.

(** * X12: the same deep walk a second time *)

(** X12: for a value whose parts are valid, whose types do not contain
    themselves and in which the keys of every map get distinct names, the
    deep walk on the node that the deep walk of the value has made from a
    fresh node changes one thing, whatever the order in which the second
    walk meets the entries of the maps: the required names are listed
    twice.  So does a second [ReadDeep] of the same value on a document.
    (When two keys of a map get the same name, the entry that the later
    one leaves depends on the order of the iteration, and a second walk
    can replace a property.) *)
Theorem X12_readDeep_again (v : reflect.Value) (opts : tagOptions)
    (schema : string) :
  wfValue v = true →
  distinctNames v = true →
  (∃ r, readDeep v opts emptyProperty = Ok r ∧
        ∀ v', reordered v v' → readDeep v' opts r = Ok (requiredTwice r)) ∧
  (∃ d, ReadDeep (Some v) (NewDocument schema) = Ok d ∧
        ∀ v', reordered v v' →
          ReadDeep (Some v') d
          = Ok (mkDocument (Schema d) (requiredTwice (root d)))).
Proof.
  intros Hwf Hdist.
  assert (∀ opts, ∃ r, readDeep v opts emptyProperty = Ok r ∧
            ∀ v', reordered v v' → readDeep v' opts r = Ok (requiredTwice r))
    as Hnode.
  { intros o. destruct (readDeep_total v Hwf o emptyProperty) as [r Hr].
    exists r. split; [done|]. intros v' Hre.
    rewrite (readDeep_reordered v Hwf Hdist v' Hre).
    destruct (readDeep_layered v Hwf o r) as (r2 & fresh & Hr2 & Hfresh & Hlay).
    rewrite Hr in Hfresh. injection Hfresh as <-.
    by rewrite Hr2, (layered_self r r2 Hlay). }
  split; [apply Hnode|].
  destruct (Hnode "") as (r & Hr & Hr2).
  destruct (setDefaultSchema_set (NewDocument schema)) as (Hs & _ & _).
  exists (mkDocument (Schema (setDefaultSchema (NewDocument schema))) r).
  rewrite ReadDeep_eq.
  change (root (NewDocument schema)) with emptyProperty.
  rewrite Hr. split; [done|]. intros v' Hre.
  rewrite ReadDeep_eq, setDefaultSchema_keep by done.
  change (root (mkDocument ?s r)) with r. by rewrite (Hr2 v' Hre).
Qed.

Lemma X12_readDeep_again_witness :
  wfValue (reflect.VMap "map[string]int" Sample.tString Sample.tInt
             [(Sample.vString "a", Sample.vInt "1");
              (Sample.vString "b", Sample.vInt "2")]) = true ∧
  distinctNames (reflect.VMap "map[string]int" Sample.tString Sample.tInt
                   [(Sample.vString "a", Sample.vInt "1");
                    (Sample.vString "b", Sample.vInt "2")]) = true ∧
  ∃ r, readDeep (reflect.VMap "map[string]int" Sample.tString Sample.tInt
                   [(Sample.vString "a", Sample.vInt "1");
                    (Sample.vString "b", Sample.vInt "2")]) "" emptyProperty
       = Ok r ∧
       readDeep (reflect.VMap "map[string]int" Sample.tString Sample.tInt
                   [(Sample.vString "b", Sample.vInt "2");
                    (Sample.vString "a", Sample.vInt "1")]) "" r
       = Ok (requiredTwice r).
Proof.
  split; [reflexivity|]. split; [by vm_compute|].
  destruct (X12_readDeep_again
              (reflect.VMap "map[string]int" Sample.tString Sample.tInt
                 [(Sample.vString "a", Sample.vInt "1");
                  (Sample.vString "b", Sample.vInt "2")]) "" ""
              eq_refl ltac:(by vm_compute)) as [(r & Hr & Hagain) _].
  exists r. split; [exact Hr|]. apply Hagain.
  apply (reordered_map _ _ _ _
           [(Sample.vString "a", Sample.vInt "1");
            (Sample.vString "b", Sample.vInt "2")]).
  - repeat constructor.
  - apply perm_swap.
Defined.
